(** * OPC UA PLC simulator: the simulation engine of [opcua_plc_simulator.py]

    A shallow embedding of the type coercion ([_to_bool], [_cast]), the
    address-space builder ([setup], [_ensure_object_path], [_split_path])
    and the tick scheduler ([_tick], [run]) of the simulator, together with
    the Python built-ins these functions call.

    Conventions.
    - A Python [str] is a [string]; the model is exact on ASCII text
      (case folding and whitespace of characters above 127 are not modelled).
    - A Python [int] is a [Z]; a Python [float] is a binary64 [float].
    - A YAML document is a [pyval]; a mapping keeps its insertion order.
    - A raised exception is a value of [exn]; a computation that may raise
      returns a [result]. *)

From Stdlib Require Import ZArith List String Ascii Floats DecimalString Lia Bool.
From stdpp Require Import base strings gmap.
Import ListNotations.
Open Scope string_scope.
Open Scope Z_scope.

(** ** Exceptions and fallible computations *)

Inductive exn : Type :=
| ValueError
| TypeError
| OverflowError
| IndexError
| AttributeError
| ZeroDivisionError
| RecursionError
| UaError.

Inductive result (A : Type) : Type :=
| Ok (a : A)
| Raise (e : exn).
Arguments Ok {A} a.
Arguments Raise {A} e.

Definition rbind {A B : Type} (r : result A) (k : A -> result B) : result B :=
  match r with
  | Ok a => k a
  | Raise e => Raise e
  end.

Notation "'let*' x ':=' r 'in' k" := (rbind r (fun x => k))
  (at level 10, x name, r at level 100, k at level 200).

Definition raises {A : Type} (r : result A) : bool :=
  match r with Ok _ => false | Raise _ => true end.

(** ** String built-ins *)

Module PyStr.

(** [s.split(sep)] for a one-character separator. *)
Fixpoint split (sep : ascii) (s : string) : list string :=
  match s with
  | EmptyString => [EmptyString]
  | String c rest =>
      if Ascii.eqb c sep then EmptyString :: split sep rest
      else match split sep rest with
           | [] => [String c EmptyString]
           | w :: ws => String c w :: ws
           end
  end.

(** [sep.join(parts)]. *)
Fixpoint join (sep : string) (parts : list string) : string :=
  match parts with
  | [] => EmptyString
  | [p] => p
  | p :: rest => p ++ sep ++ join sep rest
  end.

(** [s.replace(a, b)] for one-character [a] and [b]. *)
Fixpoint replace (a b : ascii) (s : string) : string :=
  match s with
  | EmptyString => EmptyString
  | String c rest => String (if Ascii.eqb c a then b else c) (replace a b rest)
  end.

(** [sep in s] for a one-character separator. *)
Fixpoint contains (sep : ascii) (s : string) : bool :=
  match s with
  | EmptyString => false
  | String c rest => Ascii.eqb c sep || contains sep rest
  end.

(** [s.rsplit(sep, 1)] when [sep] occurs in [s]; [None] when it does not. *)
Fixpoint rsplit1 (sep : ascii) (s : string) : option (string * string) :=
  match s with
  | EmptyString => None
  | String c rest =>
      match rsplit1 sep rest with
      | Some (p, l) => Some (String c p, l)
      | None => if Ascii.eqb c sep then Some (EmptyString, rest) else None
      end
  end.

(** [s.startswith(p)]. *)
Fixpoint startswith (p s : string) : bool :=
  match p, s with
  | EmptyString, _ => true
  | String a p', String b s' => Ascii.eqb a b && startswith p' s'
  | String _ _, EmptyString => false
  end.

Definition lower_char (c : ascii) : ascii :=
  let n := N_of_ascii c in
  if ((65 <=? n) && (n <=? 90))%N then ascii_of_N (n + 32) else c.

(** [s.lower()]. *)
Fixpoint lower (s : string) : string :=
  match s with
  | EmptyString => EmptyString
  | String c rest => String (lower_char c) (lower rest)
  end.

(** The characters [str.strip()] removes: tab, LF, VT, FF, CR, the four
    separators 0x1c-0x1f and the space. *)
Definition is_space (c : ascii) : bool :=
  let n := N_of_ascii c in
  (((9 <=? n) && (n <=? 13)) || ((28 <=? n) && (n <=? 32)))%N.

Fixpoint lstrip (s : string) : string :=
  match s with
  | EmptyString => EmptyString
  | String c rest => if is_space c then lstrip rest else s
  end.

Fixpoint rstrip (s : string) : string :=
  match s with
  | EmptyString => EmptyString
  | String c rest =>
      match rstrip rest with
      | EmptyString => if is_space c then EmptyString else String c EmptyString
      | r => String c r
      end
  end.

(** [s.strip()]. *)
Definition strip (s : string) : string := rstrip (lstrip s).

(** [s in {...}] for a set of string literals. *)
Definition mem (s : string) (l : list string) : bool :=
  existsb (String.eqb s) l.

End PyStr.

(** ** Numeric built-ins *)

Module PyNum.

(** [str(n)] for an int [n]. *)
Definition str_of_int (z : Z) : string := NilZero.string_of_int (Z.to_int z).

(** [float(n)] for an int [n]: round to nearest even, [OverflowError]
    beyond the binary64 range. *)
Definition float_of_int (z : Z) : result float :=
  let f := SF2Prim (binary_normalize prec emax z 0 false) in
  if is_infinity f then Raise OverflowError else Ok f.

(** [int(f)] for a float [f]: truncation toward zero. *)
Definition int_of_float (f : float) : result Z :=
  match Prim2SF f with
  | S754_zero _ => Ok 0
  | S754_finite s m e =>
      let a := Z.shiftl (Z.pos m) e in
      Ok (if s then - a else a)
  | S754_infinity _ => Raise OverflowError
  | S754_nan => Raise ValueError
  end.

(** The binary64 float nearest to [m * 10 ^ e10] for [0 <= m], ties to even.
    A negative [e10] divides with 64 guard bits and a sticky bit. *)
Definition float_of_decimal (m e10 : Z) : float :=
  if m <=? 0 then 0%float
  else if 0 <=? e10 then SF2Prim (binary_normalize prec emax (m * 10 ^ e10) 0 false)
  else
    let d := 10 ^ (- e10) in
    let s := Z.max 0 (64 + Z.log2 d - Z.log2 m) in
    let n := m * 2 ^ s in
    let sticky := if n mod d =? 0 then 0 else 1 in
    SF2Prim (binary_normalize prec emax (2 * (n / d) + sticky) (- s - 1) false).

(** The whitespace [float()] and [int()] skip around a text: tab, LF, VT,
    FF, CR and the space, and nothing else. *)
Definition is_space (c : ascii) : bool :=
  let n := N_of_ascii c in
  (((9 <=? n) && (n <=? 13)) || (n =? 32))%N.

Fixpoint lstrip (s : string) : string :=
  match s with
  | EmptyString => EmptyString
  | String c rest => if is_space c then lstrip rest else s
  end.

Fixpoint rstrip (s : string) : string :=
  match s with
  | EmptyString => EmptyString
  | String c rest =>
      match rstrip rest with
      | EmptyString => if is_space c then EmptyString else String c EmptyString
      | r => String c r
      end
  end.

Definition strip (s : string) : string := rstrip (lstrip s).

(** [sys.get_int_max_str_digits()]: the longest decimal text an int is
    converted to or from. *)
Definition max_str_digits : Z := 4300.

Definition digit_of (c : ascii) : option Z :=
  let n := N_of_ascii c in
  if ((48 <=? n) && (n <=? 57))%N then Some (Z.of_N n - 48) else None.

(** The rest of a [digitpart] after its first digit: digits, each
    optionally preceded by one underscore. Returns the value, the number
    of digits read and the unread text. *)
Fixpoint digits_tail (s : string) (acc n : Z) : Z * Z * string :=
  match s with
  | EmptyString => (acc, n, s)
  | String c rest =>
      match digit_of c with
      | Some d => digits_tail rest (10 * acc + d) (n + 1)
      | None =>
          if Ascii.eqb c "_" then
            match rest with
            | String c' rest' =>
                match digit_of c' with
                | Some d => digits_tail rest' (10 * acc + d) (n + 1)
                | None => (acc, n, s)
                end
            | EmptyString => (acc, n, s)
            end
          else (acc, n, s)
      end
  end.

(** [digitpart ::= digit (["_"] digit)*], continuing the value [acc]. *)
Definition digitpart (s : string) (acc : Z) : option (Z * Z * string) :=
  match s with
  | String c rest =>
      match digit_of c with
      | Some d => Some (digits_tail rest (10 * acc + d) 1)
      | None => None
      end
  | EmptyString => None
  end.

(** An optional sign: [true] for a minus. *)
Definition sign (s : string) : bool * string :=
  match s with
  | String "-" rest => (true, rest)
  | String "+" rest => (false, rest)
  | _ => (false, s)
  end.

(** [number ::= [digitpart] "." digitpart | digitpart ["."]]: the digits
    as one integer and the number of digits after the point. *)
Definition number (s : string) : option (Z * Z * string) :=
  match digitpart s 0 with
  | Some (ip, _, String "." rest) =>
      match digitpart rest ip with
      | Some (m, nf, rest') => Some (m, nf, rest')
      | None => Some (ip, 0, rest)
      end
  | Some (ip, _, rest) => Some (ip, 0, rest)
  | None =>
      match s with
      | String "." rest => digitpart rest 0
      | _ => None
      end
  end.

(** [exponent ::= ("e" | "E") [sign] digitpart], absent when the text is
    at its end; [None] when the text continues with anything else. *)
Definition exponent (s : string) : option Z :=
  match s with
  | EmptyString => Some 0
  | String c rest =>
      if Ascii.eqb c "e" || Ascii.eqb c "E" then
        let '(neg, rest') := sign rest in
        match digitpart rest' 0 with
        | Some (e, _, EmptyString) => Some (if neg then - e else e)
        | _ => None
        end
      else None
  end.

(** [float(s)] for a str [s] already stripped: [None] is [ValueError]. *)
Definition float_of_stripped (s : string) : option float :=
  let '(neg, body) := sign s in
  let abs :=
    let l := PyStr.lower body in
    if String.eqb l "inf" || String.eqb l "infinity" then Some infinity
    else if String.eqb l "nan" then Some nan
    else
      match number body with
      | Some (m, nf, rest) =>
          match exponent rest with
          | Some e => Some (float_of_decimal m (e - nf))
          | None => None
          end
      | None => None
      end in
  match abs with
  | Some f => Some (if neg then (- f)%float else f)
  | None => None
  end.

(** [int(s)] for a str [s] already stripped, base 10: [None] is
    [ValueError], also for more than [max_str_digits] digits. *)
Definition int_of_stripped (s : string) : option Z :=
  let '(neg, body) := sign s in
  match digitpart body 0 with
  | Some (n, nd, EmptyString) =>
      if max_str_digits <? nd then None else Some (if neg then - n else n)
  | _ => None
  end.

(** *** [repr] of a float: the shortest digits that read back as the float *)

Definition ndigits (z : Z) : Z := Z.of_nat (String.length (str_of_int z)).

(** [str(z)] exists: [z] has at most [max_str_digits] digits. *)
Definition int_printable (z : Z) : bool := ndigits (Z.abs z) <=? max_str_digits.

(** For a fraction [0 < n / d < 1]: the number of zeros between the
    decimal point and the first significant digit. *)
Fixpoint leading_zeros (fuel : nat) (n d : Z) : Z :=
  match fuel with
  | O => 0
  | S fuel' => if 10 * n <? d then 1 + leading_zeros fuel' (10 * n) d else 0
  end.

(** The position of the decimal point of [n / d]: the [p] with
    [10 ^ (p - 1) <= n / d < 10 ^ p]. *)
Definition decimal_point (n d : Z) : Z :=
  if d <=? n then ndigits (n / d) else - leading_zeros 400 n d.

(** The shortest decimal [c * 10 ^ scale] that reads back as [x], trying
    1, 2, ... significant digits; of two such decimals the one nearer to
    [x = n / d]. *)
Fixpoint shortest (fuel : nat) (x : float) (n d p : Z) (digits : Z) : Z * Z :=
  let scale := p - digits in
  let num := if 0 <=? scale then n else n * 10 ^ (- scale) in
  let den := if 0 <=? scale then d * 10 ^ scale else d in
  let lo := num / den in
  let hi := lo + 1 in
  let r2 := 2 * (num mod den) in
  let lo_ok := (float_of_decimal lo scale =? x)%float in
  let hi_ok := (float_of_decimal hi scale =? x)%float in
  let nearest := if r2 <? den then lo else if den <? r2 then hi
                 else if Z.even lo then lo else hi in
  match fuel with
  | O => (nearest, scale)
  | S fuel' =>
      if lo_ok && hi_ok then (nearest, scale)
      else if lo_ok then (lo, scale)
      else if hi_ok then (hi, scale)
      else shortest fuel' x n d p (digits + 1)
  end.

Fixpoint rstrip_zeros (s : string) : string :=
  match s with
  | EmptyString => EmptyString
  | String c rest =>
      match rstrip_zeros rest with
      | EmptyString => if Ascii.eqb c "0" then EmptyString else String c EmptyString
      | r => String c r
      end
  end.

Fixpoint zeros (n : nat) : string :=
  match n with O => EmptyString | S n' => String "0" (zeros n') end.

(** The layout of [repr]: exponent notation when the decimal point lies
    at or before -4 or after 16. *)
Definition layout (digits : string) (decpt : Z) : string :=
  let len := Z.of_nat (String.length digits) in
  if (decpt <=? -4) || (16 <? decpt) then
    let e := decpt - 1 in
    let es := str_of_int (Z.abs e) in
    let mant := match digits with
                | String c EmptyString => digits
                | String c rest => String c (String "." rest)
                | EmptyString => digits
                end in
    mant ++ "e" ++ (if e <? 0 then "-" else "+")
         ++ (if Z.abs e <? 10 then "0" else "") ++ es
  else if decpt <=? 0 then "0." ++ zeros (Z.to_nat (- decpt)) ++ digits
  else if len <=? decpt then digits ++ zeros (Z.to_nat (decpt - len)) ++ ".0"
  else substring 0 (Z.to_nat decpt) digits ++ "."
       ++ substring (Z.to_nat decpt) (Z.to_nat (len - decpt)) digits.

(** [repr(f)], which is also [str(f)]. *)
Definition repr_float (f : float) : string :=
  match Prim2SF f with
  | S754_nan => "nan"
  | S754_infinity s => if s then "-inf" else "inf"
  | S754_zero s => if s then "-0.0" else "0.0"
  | S754_finite s m e =>
      let n := if 0 <=? e then Z.pos m * 2 ^ e else Z.pos m in
      let d := if 0 <=? e then 1 else 2 ^ (- e) in
      let '(c, scale) := shortest 17 (abs f) n d (decimal_point n d) 1 in
      (if s then "-" else "") ++ layout (rstrip_zeros (str_of_int c)) (ndigits c + scale)
  end.

End PyNum.
(** ** Python values *)

#[local] Set Warnings "-register-all".

Inductive pyval : Type :=
| VNone
| VBool (b : bool)
| VInt (z : Z)
| VFloat (f : float)
| VStr (s : string)
| VList (l : list pyval)
| VDict (d : list (string * pyval)).


Definition double_quote : ascii := ascii_of_N 34.

Definition hex_digit (n : N) : ascii :=
  if (n <? 10)%N then ascii_of_N (48 + n) else ascii_of_N (87 + n).

(** The body of [repr(s)] between the quotes [q]. *)
Fixpoint escape (q : ascii) (s : string) : string :=
  match s with
  | EmptyString => EmptyString
  | String c rest =>
      let n := N_of_ascii c in
      let e :=
        if Ascii.eqb c q || Ascii.eqb c "\" then String "\" (String c EmptyString)
        else if (n =? 9)%N then "\t"
        else if (n =? 10)%N then "\n"
        else if (n =? 13)%N then "\r"
        else if ((n <? 32) || (n =? 127))%N then
          String "\" (String "x" (String (hex_digit (n / 16))
                                    (String (hex_digit (n mod 16)) EmptyString)))
        else String c EmptyString in
      (e ++ escape q rest)%string
  end.

(** [repr(s)] for a str: single quotes, unless the text has a single
    quote and no double quote. *)
Definition repr_str (s : string) : string :=
  let q := if PyStr.contains "'" s && negb (PyStr.contains double_quote s)
           then double_quote else "'"%char in
  String q (escape q s ++ String q EmptyString).

(** [repr(v)]. *)
Fixpoint py_repr (v : pyval) : string :=
  match v with
  | VNone => "None"
  | VBool b => if b then "True" else "False"
  | VInt z => PyNum.str_of_int z
  | VFloat f => PyNum.repr_float f
  | VStr s => repr_str s
  | VList l => "[" ++ PyStr.join ", " (map py_repr l) ++ "]"
  | VDict d =>
      "{" ++ PyStr.join ", "
               (map (fun kv => let '(k, x) := kv in repr_str k ++ ": " ++ py_repr x) d)
          ++ "}"
  end%string.

(** The text of [str(v)]. *)
Definition py_str (v : pyval) : string :=
  match v with
  | VStr s => s
  | _ => py_repr v
  end.

(** [str(v)] and [repr(v)] exist: no int of more than [max_str_digits]
    digits has to be written. *)
Fixpoint printable (v : pyval) : bool :=
  match v with
  | VInt z => PyNum.int_printable z
  | VList l => forallb printable l
  | VDict d => forallb (fun kv => printable (snd kv)) d
  | _ => true
  end.

(** [str(v)], with the [ValueError] of an int beyond the digit limit. *)
Definition str_of_value (v : pyval) : result string :=
  if printable v then Ok (py_str v) else Raise ValueError.

(** [bool(v)]: the truth value of [v]. *)
Definition py_bool (v : pyval) : bool :=
  match v with
  | VNone => false
  | VBool b => b
  | VInt z => negb (z =? 0)
  | VFloat f => negb (f =? 0)%float
  | VStr s => negb (String.eqb s "")
  | VList l => match l with [] => false | _ => true end
  | VDict d => match d with [] => false | _ => true end
  end.

(** [float(v)]. *)
Definition py_float (v : pyval) : result float :=
  match v with
  | VBool b => Ok (if b then 1%float else 0%float)
  | VInt z => PyNum.float_of_int z
  | VFloat f => Ok f
  | VStr s =>
      match PyNum.float_of_stripped (PyNum.strip s) with
      | Some f => Ok f
      | None => Raise ValueError
      end
  | VNone | VList _ | VDict _ => Raise TypeError
  end.

(** [int(v)]. *)
Definition py_int (v : pyval) : result Z :=
  match v with
  | VBool b => Ok (if b then 1 else 0)
  | VInt z => Ok z
  | VFloat f => PyNum.int_of_float f
  | VStr s =>
      match PyNum.int_of_stripped (PyNum.strip s) with
      | Some z => Ok z
      | None => Raise ValueError
      end
  | VNone | VList _ | VDict _ => Raise TypeError
  end.

(** [n / f] for an int [n] and a float [f]. *)
Definition int_truediv (n : Z) (f : float) : result float :=
  let* x := PyNum.float_of_int n in
  if (f =? 0)%float then Raise ZeroDivisionError else Ok (x / f)%float.

(** [max(a, b)] and [min(a, b)] on floats: the first argument unless the
    second is strictly beyond it. *)
Definition py_max (a b : float) : float := if (a <? b)%float then b else a.
Definition py_min (a b : float) : float := if (b <? a)%float then b else a.

(** [l[i]]. *)
Definition py_index (l : list pyval) (i : Z) : result pyval :=
  let n := Z.of_nat (length l) in
  let j := if i <? 0 then i + n else i in
  if (j <? 0) || (n <=? j) then Raise IndexError
  else match nth_error l (Z.to_nat j) with
       | Some v => Ok v
       | None => Raise IndexError
       end.

(** *** Mappings *)

Fixpoint lookup_key (k : string) (d : list (string * pyval)) : option pyval :=
  match d with
  | [] => None
  | (k', v) :: rest => if String.eqb k k' then Some v else lookup_key k rest
  end.

(** [d.get(k, default)] on a dict. *)
Definition dict_get (d : list (string * pyval)) (k : string) (default : pyval) : pyval :=
  match lookup_key k d with
  | Some v => v
  | None => default
  end.

(** [v.get(k, default)] on any value: only a dict has the method. *)
Definition py_get (v : pyval) (k : string) (default : pyval) : result pyval :=
  match v with
  | VDict d => Ok (dict_get d k default)
  | _ => Raise AttributeError
  end.

(** [a or b]. *)
Definition py_or (a b : pyval) : pyval := if py_bool a then a else b.

(** ** Type coercion *)

(** The strings [_to_bool] reads as true. *)
Definition truthy : list string := ["1"; "true"; "yes"; "on"].

Definition _to_bool (value : pyval) : result bool :=
  match value with
  | VBool b => Ok b
  | VInt _ | VFloat _ => Ok (py_bool value)
  | _ =>
      let* s := str_of_value value in
      Ok (PyStr.mem (PyStr.lower (PyStr.strip s)) truthy)
  end.

(** The tag families [_cast] tests its type tag against. *)
Definition bool_tags : list string := ["bool"; "boolean"].
Definition int_tags : list string := ["int"; "integer"; "int32"; "int64"; "uint16"; "uint32"].
Definition float_tags : list string := ["float"; "double"; "number"].

(** [str(dtype).lower().strip()], the tag [_cast] dispatches on. *)
Definition cast_tag (dtype : string) : string := PyStr.strip (PyStr.lower dtype).

Definition _cast (dtype : string) (value : pyval) : result pyval :=
  let dtype := cast_tag dtype in
  if PyStr.mem dtype bool_tags then
    let* b := _to_bool value in
    Ok (VBool b)
  else if PyStr.mem dtype int_tags then
    let* f := py_float value in
    let* n := PyNum.int_of_float f in
    Ok (VInt n)
  else if PyStr.mem dtype float_tags then
    let* f := py_float value in
    Ok (VFloat f)
  else
    let* s := str_of_value value in
    Ok (VStr s).

(** ** The address space of the OPC UA server

    The substrate is outside the program; the model keeps what the
    simulator can observe of it. A node handle is the node's identifier.
    [unreadable] and [unwritable] are the handles on which [read_value]
    and [write_value] currently fail; [calls] logs every read and write
    the simulator issues, oldest first. *)

Record UaNode : Type := {
  ua_parent : string;
  ua_name : string;
  ua_value : option pyval;
  ua_writable : bool
}.

Inductive event : Type :=
| EvRead (h : string)
| EvWrite (h : string) (v : pyval).

Record Server : Type := {
  nodes : gmap string UaNode;
  unreadable : gset string;
  unwritable : gset string;
  calls : list event
}.

(** [server.nodes.objects], the Objects folder. *)
Definition objects_node : string := "i=85".

Definition Server_new : Server :=
  {| nodes := {[ objects_node := {| ua_parent := ""; ua_name := "Objects";
                                    ua_value := None; ua_writable := false |} ]};
     unreadable := ∅; unwritable := ∅; calls := [] |}.

Definition set_nodes (srv : Server) (ns : gmap string UaNode) : Server :=
  {| nodes := ns; unreadable := unreadable srv; unwritable := unwritable srv;
     calls := calls srv |}.

Definition log_call (srv : Server) (ev : event) : Server :=
  {| nodes := nodes srv; unreadable := unreadable srv; unwritable := unwritable srv;
     calls := calls srv ++ [ev] |}.

(** [parent.add_object(node_id, name)]: fails on an identifier in use. *)
Definition add_object (srv : Server) (parent node_id name : string) : Server * result string :=
  match nodes srv !! node_id with
  | Some _ => (srv, Raise UaError)
  | None =>
      (set_nodes srv (<[node_id := {| ua_parent := parent; ua_name := name;
                                      ua_value := None; ua_writable := false |}]> (nodes srv)),
       Ok node_id)
  end.

(** [parent.add_variable(node_id, name, initial)]. *)
Definition add_variable (srv : Server) (parent node_id name : string) (initial : pyval)
  : Server * result string :=
  match nodes srv !! node_id with
  | Some _ => (srv, Raise UaError)
  | None =>
      (set_nodes srv (<[node_id := {| ua_parent := parent; ua_name := name;
                                      ua_value := Some initial; ua_writable := false |}]> (nodes srv)),
       Ok node_id)
  end.

(** [node.set_writable()]. *)
Definition set_writable (srv : Server) (h : string) : Server * result unit :=
  match nodes srv !! h with
  | Some n =>
      (set_nodes srv (<[h := {| ua_parent := ua_parent n; ua_name := ua_name n;
                                ua_value := ua_value n; ua_writable := true |}]> (nodes srv)),
       Ok tt)
  | None => (srv, Raise UaError)
  end.

(** The value a variable node holds. *)
Definition node_value (srv : Server) (h : string) : option pyval :=
  match nodes srv !! h with
  | Some n => ua_value n
  | None => None
  end.

(** [node.read_value()]. *)
Definition read_value (srv : Server) (h : string) : Server * result pyval :=
  let srv' := log_call srv (EvRead h) in
  if decide (h ∈ unreadable srv) then (srv', Raise UaError)
  else match node_value srv h with
       | Some v => (srv', Ok v)
       | None => (srv', Raise UaError)
       end.

(** [node.write_value(v)]. *)
Definition write_value (srv : Server) (h : string) (v : pyval) : Server * result unit :=
  let srv' := log_call srv (EvWrite h v) in
  if decide (h ∈ unwritable srv) then (srv', Raise UaError)
  else match nodes srv !! h with
       | Some n =>
           match ua_value n with
           | Some _ =>
               (set_nodes srv' (<[h := {| ua_parent := ua_parent n; ua_name := ua_name n;
                                          ua_value := Some v; ua_writable := ua_writable n |}]>
                                  (nodes srv)),
                Ok tt)
           | None => (srv', Raise UaError)
           end
       | None => (srv', Raise UaError)
       end.

(** ** The platform: clock, random source and math library

    [monotonic k] is the [k]-th reading of [time.monotonic()], [random k]
    the [k]-th draw of [random.random()], a float in [[0, 1)], [randbits k]
    the integer behind the [k]-th draw of an index, and [libm_sin] the C
    library's sine on finite arguments. *)

Record Platform : Type := {
  monotonic : nat -> float;
  random : nat -> float;
  randbits : nat -> nat;
  libm_sin : float -> float
}.

(** [math.pi]. *)
Definition math_pi : float := 0x1.921fb54442d18p+1%float.

(** [math.sin(x)]: a domain error on an infinity. *)
Definition math_sin (pf : Platform) (x : float) : result float :=
  if is_infinity x then Raise ValueError else Ok (libm_sin pf x).

(** [random.uniform(a, b)] on the draw [k]. *)
Definition random_uniform (pf : Platform) (k : nat) (a b : float) : float :=
  (a + (b - a) * random pf k)%float.

(** [random.choice(seq)] on the draw [k]. *)
Definition random_choice (pf : Platform) (k : nat) (seq : list pyval) : result pyval :=
  match seq with
  | [] => Raise IndexError
  | _ => py_index seq (Z.of_nat (randbits pf k mod length seq)%nat)
  end.

(** ** Bindings and the simulator *)

Record SimBinding : Type := {
  node : string;
  node_id : string;
  dtype : string;
  simulation : list (string * pyval);
  next_due : float;
  cycle_index : Z;
  phase : float
}.

Definition set_next_due (b : SimBinding) (t : float) : SimBinding :=
  {| node := node b; node_id := node_id b; dtype := dtype b; simulation := simulation b;
     next_due := t; cycle_index := cycle_index b; phase := phase b |}.

Definition set_cycle_index (b : SimBinding) (i : Z) : SimBinding :=
  {| node := node b; node_id := node_id b; dtype := dtype b; simulation := simulation b;
     next_due := next_due b; cycle_index := i; phase := phase b |}.

Definition set_phase (b : SimBinding) (p : float) : SimBinding :=
  {| node := node b; node_id := node_id b; dtype := dtype b; simulation := simulation b;
     next_due := next_due b; cycle_index := cycle_index b; phase := p |}.

(** The simulator object, with the number of clock readings and random
    draws consumed so far. *)
Record PlcSimulator : Type := {
  cfg : pyval;
  server : Server;
  bindings : list SimBinding;
  default_tick_ms : Z;
  clock_reads : nat;
  draws : nat
}.

(** [PlcSimulator.__init__]. *)
Definition PlcSimulator_init (cfg : pyval) : result PlcSimulator :=
  let* server_cfg := py_get cfg "server" (VDict []) in
  let* tick_ms := py_get server_cfg "tick_ms" (VInt 1000) in
  let* default_tick_ms := py_int tick_ms in
  Ok {| cfg := cfg; server := Server_new; bindings := [];
        default_tick_ms := default_tick_ms; clock_reads := 0; draws := 0 |}.

(** ** Address-space builder *)

(** ["/".join([p for p in str(path).split("/") if p])]. *)
Definition normalize (path : string) : string :=
  PyStr.join "/" (filter (fun p => negb (String.eqb p "")) (PyStr.split "/" path)).

Definition _split_path (path : string) : string * string :=
  let clean := normalize path in
  if negb (PyStr.contains "/" clean) then ("", clean)
  else match PyStr.rsplit1 "/" clean with
       | Some (parent, leaf) => (parent, leaf)
       | None => ("", clean)
       end.

(** The identifier of the container at a normalized path. *)
Definition object_node_id (ns_idx : Z) (norm : string) : string :=
  ("ns=" ++ PyNum.str_of_int ns_idx ++ ";s=" ++ PyStr.replace "/" "." norm)%string.

(** [_ensure_object_path(cache, ns_idx, path)]; [fuel] bounds the depth of
    the recursion. *)
Fixpoint _ensure_object_path (fuel : nat) (srv : Server) (cache : gmap string string)
    (ns_idx : Z) (path : string) : Server * gmap string string * result string :=
  let norm := normalize path in
  match cache !! norm with
  | Some obj => (srv, cache, Ok obj)
  | None =>
      match fuel with
      | O => (srv, cache, Raise RecursionError)
      | S fuel' =>
          let '(parent_path, leaf) := _split_path norm in
          let '(srv1, cache1, rparent) :=
            if negb (String.eqb norm "")
            then _ensure_object_path fuel' srv cache ns_idx parent_path
            else (srv, cache, Ok objects_node) in
          match rparent with
          | Raise e => (srv1, cache1, Raise e)
          | Ok parent =>
              if String.eqb norm "" then (srv1, cache1, Ok parent)
              else
                let node_id := object_node_id ns_idx norm in
                let '(srv2, robj) := add_object srv1 parent node_id leaf in
                match robj with
                | Raise e => (srv2, cache1, Raise e)
                | Ok obj => (srv2, <[norm := obj]> cache1, Ok obj)
                end
          end
      end
  end.

(** Recursion depth that any path allows. *)
Definition path_fuel (path : string) : nat := S (String.length path).

(** *** One variable descriptor (the body of the loop of [setup])

    [item_name], [item_path] and [item_dtype] are the texts of lines
    161-163 for a descriptor whose name, path and type have a text;
    [item_texts] is the [str] of these lines with its [ValueError], which
    [setup_item] evaluates before it uses any of them. *)

Definition item_name (item : list (string * pyval)) : string :=
  py_str (py_or (dict_get item "name" VNone) (VStr "Variable")).

Definition item_path (root_name : pyval) (item : list (string * pyval)) : string :=
  py_str (py_or (dict_get item "path" VNone)
                (VStr (py_str root_name ++ "/" ++ item_name item)%string)).

Definition item_dtype (item : list (string * pyval)) : string :=
  PyStr.lower (py_str (py_or (dict_get item "type" VNone) (VStr "float"))).

Definition item_writable (item : list (string * pyval)) : bool :=
  py_bool (dict_get item "writable" (VBool true)).

Definition item_initial (item : list (string * pyval)) : result pyval :=
  let dtype := item_dtype item in
  _cast dtype (dict_get item "initial" (if String.eqb dtype "bool" then VBool false else VInt 0)).

(** Lines 161-163: [str] of the name, of the path (of the root in the
    default path) and of the type. *)
Definition item_texts (root_name : pyval) (item : list (string * pyval)) : result unit :=
  let* name := str_of_value (py_or (dict_get item "name" VNone) (VStr "Variable")) in
  let* path := (if py_bool (dict_get item "path" VNone)
                then str_of_value (dict_get item "path" VNone)
                else str_of_value root_name) in
  let* dtype := str_of_value (py_or (dict_get item "type" VNone) (VStr "float")) in
  Ok tt.

(** Line 172: [str(raw_node_id)] of an explicit identifier. *)
Definition item_node_id_text (item : list (string * pyval)) : result unit :=
  if py_bool (dict_get item "node_id" VNone)
  then let* node_id := str_of_value (dict_get item "node_id" VNone) in Ok tt
  else Ok tt.

(** The identifier of a variable node: the explicit [node_id] of the
    descriptor, or the one derived from its path. *)
Definition item_node_id (ns_idx : Z) (root_name : pyval) (item : list (string * pyval)) : string :=
  let path := item_path root_name item in
  let raw_node_id := dict_get item "node_id" VNone in
  if py_bool raw_node_id then
    let node_id := py_str raw_node_id in
    if negb (PyStr.startswith "ns=" node_id)
    then ("ns=" ++ PyNum.str_of_int ns_idx ++ ";s=" ++ node_id)%string
    else node_id
  else
    let canonical := PyStr.replace "/" "." path in
    ("ns=" ++ PyNum.str_of_int ns_idx ++ ";s=" ++ canonical)%string.

(** The state [setup] threads through its loop. *)
Record Setup : Type := {
  su_sim : PlcSimulator;
  su_cache : gmap string string
}.

Definition with_server (sim : PlcSimulator) (srv : Server) : PlcSimulator :=
  {| cfg := cfg sim; server := srv; bindings := bindings sim;
     default_tick_ms := default_tick_ms sim; clock_reads := clock_reads sim;
     draws := draws sim |}.

Definition setup_item (pf : Platform) (ns_idx : Z) (root_name : pyval) (st : Setup)
    (item : list (string * pyval)) : Setup * option exn :=
  let sim := su_sim st in
  let name := item_name item in
  let path := item_path root_name item in
  let dtype := item_dtype item in
  let writable := item_writable item in
  match item_texts root_name item with
  | Raise e => (st, Some e)
  | Ok _ =>
  match item_initial item with
  | Raise e => (st, Some e)
  | Ok initial =>
      let '(parent_path, leaf) := _split_path path in
      let '(srv1, cache1, rparent) :=
        _ensure_object_path (path_fuel parent_path) (server sim) (su_cache st) ns_idx parent_path in
      match rparent with
      | Raise e => ({| su_sim := with_server sim srv1; su_cache := cache1 |}, Some e)
      | Ok parent =>
          match item_node_id_text item with
          | Raise e => ({| su_sim := with_server sim srv1; su_cache := cache1 |}, Some e)
          | Ok _ =>
          let node_id := item_node_id ns_idx root_name item in
          let '(srv2, rvar) := add_variable srv1 parent node_id leaf initial in
          match rvar with
          | Raise e => ({| su_sim := with_server sim srv2; su_cache := cache1 |}, Some e)
          | Ok var_node =>
              let '(srv3, rw) := if writable then set_writable srv2 var_node else (srv2, Ok tt) in
              match rw with
              | Raise e => ({| su_sim := with_server sim srv3; su_cache := cache1 |}, Some e)
              | Ok _ =>
                  let sim3 := with_server sim srv3 in
                  match dict_get item "simulation" VNone with
                  | VDict sim_cfg =>
                      if py_bool (dict_get sim_cfg "mode" VNone) then
                        match py_int (dict_get sim_cfg "interval_ms" (VInt (default_tick_ms sim))) with
                        | Raise e => ({| su_sim := sim3; su_cache := cache1 |}, Some e)
                        | Ok interval_ms =>
                            match int_truediv interval_ms 1000 with
                            | Raise e => ({| su_sim := sim3; su_cache := cache1 |}, Some e)
                            | Ok d =>
                                let b := {| node := var_node; node_id := node_id; dtype := dtype;
                                            simulation := sim_cfg;
                                            next_due := (monotonic pf (clock_reads sim) + d)%float;
                                            cycle_index := 0; phase := 0%float |} in
                                ({| su_sim := {| cfg := cfg sim; server := srv3;
                                                 bindings := bindings sim ++ [b];
                                                 default_tick_ms := default_tick_ms sim;
                                                 clock_reads := S (clock_reads sim);
                                                 draws := draws sim |};
                                    su_cache := cache1 |}, None)
                            end
                        end
                      else ({| su_sim := sim3; su_cache := cache1 |}, None)
                  | _ => ({| su_sim := sim3; su_cache := cache1 |}, None)
                  end
              end
          end
          end
      end
  end
  end.

Fixpoint setup_items (pf : Platform) (ns_idx : Z) (root_name : pyval) (st : Setup)
    (variables : list pyval) : Setup * option exn :=
  match variables with
  | [] => (st, None)
  | VDict item :: rest =>
      match setup_item pf ns_idx root_name st item with
      | (st', None) => setup_items pf ns_idx root_name st' rest
      | (st', Some e) => (st', Some e)
      end
  | _ :: rest => setup_items pf ns_idx root_name st rest
  end.

(** The two [print]s of lines 144-145 write the endpoint and the
    namespace URI as text. *)
Definition print_endpoint (endpoint namespace_uri : pyval) : result unit :=
  let* e := str_of_value endpoint in
  let* u := str_of_value namespace_uri in
  Ok tt.

(** [PlcSimulator.setup]; [ns_idx] is the index [register_namespace]
    returns. *)
Definition setup (pf : Platform) (ns_idx : Z) (sim : PlcSimulator) : PlcSimulator * option exn :=
  match py_get (cfg sim) "server" (VDict []) with
  | Raise e => (sim, Some e)
  | Ok server_cfg =>
  match py_get server_cfg "endpoint" (VStr "opc.tcp://0.0.0.0:4840") with
  | Raise e => (sim, Some e)
  | Ok endpoint =>
  match py_get server_cfg "namespace_uri" (VStr "urn:homeassistant:opcua:plc-simulator") with
  | Raise e => (sim, Some e)
  | Ok namespace_uri =>
  match print_endpoint endpoint namespace_uri with
  | Raise e => (sim, Some e)
  | Ok _ =>
  match py_get (cfg sim) "model" (VDict []) with
  | Raise e => (sim, Some e)
  | Ok model =>
  match py_get model "root" (VStr "Machine") with
  | Raise e => (sim, Some e)
  | Ok root_name =>
  match str_of_value root_name with
  | Raise e => (sim, Some e)
  | Ok root_path =>
      let objects_cache : gmap string string := {[ "" := objects_node ]} in
      let '(srv1, cache1, rroot) :=
        _ensure_object_path (path_fuel root_path) (server sim) objects_cache ns_idx root_path in
      match rroot with
      | Raise e => (with_server sim srv1, Some e)
      | Ok _ =>
          match py_get model "variables" (VList []) with
          | Raise e => (with_server sim srv1, Some e)
          | Ok (VList variables) =>
              let '(st, r) := setup_items pf ns_idx root_name
                                {| su_sim := with_server sim srv1; su_cache := cache1 |} variables in
              (su_sim st, r)
          | Ok _ => (with_server sim srv1, Some ValueError)
          end
      end
  end end end end end end end.

(** ** Value generators and the tick scheduler *)

(** [float(b.simulation.get(key, default))]. *)
Definition sim_float (b : SimBinding) (key : string) (default : float) : result float :=
  py_float (dict_get (simulation b) key (VFloat default)).

(** The mode of a binding:
    [str(b.simulation.get("mode", "")).lower().strip()], for a mode that
    has a text; [generate] raises the [ValueError] of [str] for one that
    has none. *)
Definition binding_mode (b : SimBinding) : string :=
  PyStr.strip (PyStr.lower (py_str (dict_get (simulation b) "mode" (VStr "")))).

(** The wrap of [ramp]: two successive tests. *)
Definition ramp_wrap (cur minimum maximum : float) : float :=
  let cur := if (maximum <? cur)%float then minimum else cur in
  let cur := if (cur <? minimum)%float then maximum else cur in
  cur.

(** What a generator leaves behind: the binding with its generator state,
    the number of random draws consumed, and the new value or the
    exception raised. *)
Record Generated : Type := {
  gen_binding : SimBinding;
  gen_draws : nat;
  gen_value : result pyval
}.

(** Lines 240-283 of [_tick]: [str] of the mode, [new_value = current]
    and the dispatch on the mode to the end of the [elif] chain. *)
Definition generate (pf : Platform) (interval_ms : Z) (b : SimBinding) (k : nat)
    (current : pyval) : Generated :=
  let done v := {| gen_binding := b; gen_draws := k; gen_value := v |} in
  if negb (printable (dict_get (simulation b) "mode" (VStr ""))) then done (Raise ValueError)
  else
  let mode := binding_mode b in
  if String.eqb mode "toggle" then
    done (let* t := _to_bool current in Ok (VBool (negb t)))
  else if String.eqb mode "random_walk" then
    match (let* step := sim_float b "step" 1 in
           let* minimum := sim_float b "min" 0 in
           let* maximum := sim_float b "max" 100 in
           let* cur := py_float current in
           Ok (step, minimum, maximum, cur)) with
    | Raise e => done (Raise e)
    | Ok (step, minimum, maximum, cur) =>
        let cur := (cur + random_uniform pf k (- step) step)%float in
        {| gen_binding := b; gen_draws := S k;
           gen_value := Ok (VFloat (py_max minimum (py_min maximum cur))) |}
    end
  else if String.eqb mode "random_choice" then
    match dict_get (simulation b) "values" (VList []) with
    | VList (v :: vs) =>
        {| gen_binding := b; gen_draws := S k; gen_value := random_choice pf k (v :: vs) |}
    | _ => done (Ok current)
    end
  else if String.eqb mode "cycle" then
    match dict_get (simulation b) "values" (VList []) with
    | VList (v :: vs) =>
        let values := v :: vs in
        let b' := set_cycle_index b ((cycle_index b + 1) mod Z.of_nat (length values)) in
        {| gen_binding := b'; gen_draws := k; gen_value := py_index values (cycle_index b') |}
    | _ => done (Ok current)
    end
  else if String.eqb mode "ramp" then
    done (let* step := sim_float b "step" 1 in
          let* minimum := sim_float b "min" 0 in
          let* maximum := sim_float b "max" 100 in
          let* c := py_float current in
          Ok (VFloat (ramp_wrap (c + step)%float minimum maximum)))
  else if String.eqb mode "sine" then
    match (let* minimum := sim_float b "min" 0 in
           let* maximum := sim_float b "max" 100 in
           let* period_ms := sim_float b "period_ms" 5000 in
           let* q := int_truediv interval_ms (py_max period_ms 10) in
           Ok (minimum, maximum, q)) with
    | Raise e => done (Raise e)
    | Ok (minimum, maximum, q) =>
        let b' := set_phase b (phase b + (2 * math_pi) * q)%float in
        let center := ((maximum + minimum) / 2)%float in
        let amp := ((maximum - minimum) / 2)%float in
        {| gen_binding := b'; gen_draws := k;
           gen_value := let* s := math_sin pf (phase b') in
                        Ok (VFloat (center + amp * s)%float) |}
    end
  else done (Ok current).

(** What one pass of the loop body of [_tick] leaves behind. *)
Record Visited : Type := {
  vis_binding : SimBinding;
  vis_server : Server;
  vis_draws : nat;
  vis_exn : option exn
}.

(** The body of the loop of [_tick] for the binding [b]. *)
Definition tick_binding (pf : Platform) (default_tick_ms : Z) (now : float)
    (b : SimBinding) (srv : Server) (k : nat) : Visited :=
  match py_int (dict_get (simulation b) "interval_ms" (VInt default_tick_ms)) with
  | Raise e => {| vis_binding := b; vis_server := srv; vis_draws := k; vis_exn := Some e |}
  | Ok interval_ms =>
      if (now <? next_due b)%float then
        {| vis_binding := b; vis_server := srv; vis_draws := k; vis_exn := None |}
      else
        match read_value srv (node b) with
        | (srv1, Raise _) =>
            {| vis_binding := b; vis_server := srv1; vis_draws := k; vis_exn := None |}
        | (srv1, Ok current) =>
            let g := generate pf interval_ms b k current in
            let b1 := gen_binding g in
            match gen_value g with
            | Raise e =>
                {| vis_binding := b1; vis_server := srv1; vis_draws := gen_draws g;
                   vis_exn := Some e |}
            | Ok new_value =>
                match _cast (dtype b1) new_value with
                | Raise e =>
                    {| vis_binding := b1; vis_server := srv1; vis_draws := gen_draws g;
                       vis_exn := Some e |}
                | Ok casted =>
                    let srv2 := fst (write_value srv1 (node b1) casted) in
                    match int_truediv interval_ms 1000 with
                    | Raise e =>
                        {| vis_binding := b1; vis_server := srv2; vis_draws := gen_draws g;
                           vis_exn := Some e |}
                    | Ok d =>
                        {| vis_binding := set_next_due b1 (now + d)%float;
                           vis_server := srv2; vis_draws := gen_draws g; vis_exn := None |}
                    end
                end
            end
        end
  end.

(** The loop of [_tick] over the bindings still to visit. The bindings are
    mutated in place, so what was done before an exception stays done. *)
Fixpoint tick_loop (pf : Platform) (default_tick_ms : Z) (now : float)
    (bs : list SimBinding) (srv : Server) (k : nat)
  : list SimBinding * Server * nat * option exn :=
  match bs with
  | [] => ([], srv, k, None)
  | b :: rest =>
      let v := tick_binding pf default_tick_ms now b srv k in
      match vis_exn v with
      | Some e => (vis_binding v :: rest, vis_server v, vis_draws v, Some e)
      | None =>
          let '(rest', srv', k', r) :=
            tick_loop pf default_tick_ms now rest (vis_server v) (vis_draws v) in
          (vis_binding v :: rest', srv', k', r)
      end
  end.

(** [PlcSimulator._tick]. *)
Definition _tick (pf : Platform) (sim : PlcSimulator) : PlcSimulator * option exn :=
  let now := monotonic pf (clock_reads sim) in
  let '(bs, srv, k, r) :=
    tick_loop pf (default_tick_ms sim) now (bindings sim) (server sim) (draws sim) in
  ({| cfg := cfg sim; server := srv; bindings := bs;
      default_tick_ms := default_tick_ms sim;
      clock_reads := S (clock_reads sim); draws := k |}, r).

(** [PlcSimulator.run], for as many rounds as [world] is long: before
    each tick the world outside the simulator (clients, the network) acts
    on the server. The [while True] of the source is every finite prefix
    of it. *)
Fixpoint run (pf : Platform) (world : list (Server -> Server)) (sim : PlcSimulator)
  : PlcSimulator * option exn :=
  match world with
  | [] => (sim, None)
  | act :: rest =>
      match _tick pf (with_server sim (act (server sim))) with
      | (sim', Some e) => (sim', Some e)
      | (sim', None) =>
          match int_truediv (Z.max (default_tick_ms sim') 100) 1000 with
          | Raise e => (sim', Some e)
          | Ok _ => run pf rest sim'
          end
      end
  end.

(** ** The example configuration

    [EXAMPLE_CONFIG] as [yaml.safe_load] reads it. *)

Definition example_variable (name path type : string) (initial : pyval)
    (simulation : list (string * pyval)) : pyval :=
  VDict ([("name", VStr name); ("path", VStr path); ("type", VStr type);
          ("initial", initial); ("writable", VBool true)] ++ simulation).

Definition EXAMPLE_CONFIG : pyval :=
  VDict [
    ("server", VDict [("endpoint", VStr "opc.tcp://0.0.0.0:4840");
                      ("namespace_uri", VStr "urn:homeassistant:opcua:plc-simulator");
                      ("tick_ms", VInt 500)]);
    ("model", VDict [
      ("root", VStr "Machine");
      ("variables", VList [
        example_variable "Running" "Machine/Running" "bool" (VBool false)
          [("simulation", VDict [("mode", VStr "toggle"); ("interval_ms", VInt 3000)])];
        example_variable "Alarm" "Machine/Alarm" "bool" (VBool false)
          [("simulation", VDict [("mode", VStr "random_choice");
                                 ("values", VList [VBool true; VBool false; VBool false; VBool false]);
                                 ("interval_ms", VInt 4000)])];
        example_variable "Temperature" "Machine/Temperature" "float" (VFloat 42)
          [("simulation", VDict [("mode", VStr "random_walk"); ("min", VInt 20);
                                 ("max", VInt 110); ("step", VFloat 1.5);
                                 ("interval_ms", VInt 1000)])];
        example_variable "RPM" "Machine/RPM" "int" (VInt 0)
          [("simulation", VDict [("mode", VStr "ramp"); ("min", VInt 0); ("max", VInt 3000);
                                 ("step", VInt 150); ("interval_ms", VInt 800)])];
        example_variable "Mode" "Machine/Mode" "string" (VStr "Idle")
          [("simulation", VDict [("mode", VStr "cycle");
                                 ("values", VList [VStr "Idle"; VStr "Setup"; VStr "Auto"; VStr "Alarm"]);
                                 ("interval_ms", VInt 6000)])];
        example_variable "StackLightGreen" "Machine/StackLight/Green" "bool" (VBool true) [];
        example_variable "StackLightYellow" "Machine/StackLight/Yellow" "bool" (VBool false) [];
        example_variable "StackLightRed" "Machine/StackLight/Red" "bool" (VBool false) []])])].

(** A platform for the examples: the clock advances by ten seconds per
    reading, every random draw is the midpoint. *)
Definition example_platform : Platform :=
  {| monotonic := fun k =>
       (100 + 10 * SF2Prim (binary_normalize prec emax (Z.of_nat k) 0 false))%float;
     random := fun _ => 0.5%float;
     randbits := fun k => k;
     libm_sin := fun x => x |}.

(** A client of the server writes [v] to the variable [h]. *)
Definition client_write (h : string) (v : pyval) (srv : Server) : Server :=
  match nodes srv !! h with
  | Some n =>
      set_nodes srv (<[h := {| ua_parent := ua_parent n; ua_name := ua_name n;
                               ua_value := Some v; ua_writable := ua_writable n |}]>
                       (nodes srv))
  | None => srv
  end.

(** The connection to the variable [h] breaks: reads, writes fail. *)
Definition break_reads (h : string) (srv : Server) : Server :=
  {| nodes := nodes srv; unreadable := {[ h ]} ∪ unreadable srv;
     unwritable := unwritable srv; calls := calls srv |}.

Definition break_writes (h : string) (srv : Server) : Server :=
  {| nodes := nodes srv; unreadable := unreadable srv;
     unwritable := {[ h ]} ∪ unwritable srv; calls := calls srv |}.

(** The simulator a configuration starts: [__init__], then [setup] with
    the namespace index 2. [None] when either raises. *)
Definition start (pf : Platform) (config : pyval) : option PlcSimulator :=
  match PlcSimulator_init config with
  | Ok sim =>
      match setup pf 2 sim with
      | (sim', None) => Some sim'
      | (_, Some _) => None
      end
  | Raise _ => None
  end.

(** A simulator with no node and no binding. *)
Definition empty_simulator : PlcSimulator :=
  {| cfg := VDict []; server := Server_new; bindings := []; default_tick_ms := 1000;
     clock_reads := 0; draws := 0 |}.

(** The simulator of the example configuration after [setup]. *)
Definition example_simulator : PlcSimulator :=
  match start example_platform EXAMPLE_CONFIG with
  | Some sim => sim
  | None => empty_simulator
  end.

(** The values the variable [h] holds after each round of [run]. *)
Fixpoint trace (pf : Platform) (h : string) (world : list (Server -> Server))
    (sim : PlcSimulator) : list (option pyval) :=
  match world with
  | [] => []
  | act :: rest =>
      let sim' := fst (run pf [act] sim) in
      node_value (server sim') h :: trace pf h rest sim'
  end.

(** A descriptor without [initial], and [setup_item] run on it from the
    state in which only the Objects folder exists. *)
Definition label_item : list (string * pyval) :=
  [("name", VStr "Label"); ("type", VStr "string")].

Definition label_state : Setup :=
  {| su_sim := empty_simulator; su_cache := {[ "" := objects_node ]} |}.

Definition label_setup : Setup * option exn :=
  setup_item example_platform 2 (VStr "Machine") label_state label_item.

(** The bindings [setup] creates for the RPM and Mode variables of the
    example configuration, before their first due time is set. *)
Definition rpm_binding : SimBinding :=
  {| node := "ns=2;s=Machine.RPM"; node_id := "ns=2;s=Machine.RPM"; dtype := "int";
     simulation := [("mode", VStr "ramp"); ("min", VInt 0); ("max", VInt 3000);
                    ("step", VInt 150); ("interval_ms", VInt 800)];
     next_due := 0; cycle_index := 0; phase := 0 |}.


Definition mode_binding : SimBinding :=
  {| node := "ns=2;s=Machine.Mode"; node_id := "ns=2;s=Machine.Mode"; dtype := "string";
     simulation := [("mode", VStr "cycle");
                    ("values", VList [VStr "Idle"; VStr "Setup"; VStr "Auto"; VStr "Alarm"]);
                    ("interval_ms", VInt 6000)];
     next_due := 0; cycle_index := 0; phase := 0 |}.

(** A read, a write of the variable [h] would fail on the server. *)
Definition read_fails (srv : Server) (h : string) : bool :=
  raises (snd (read_value srv h)).

Definition write_fails (srv : Server) (h : string) (v : pyval) : bool :=
  raises (snd (write_value srv h v)).

(** The write of [v] to [h] is in the log. *)
Definition wrote (h : string) (log : list event) : Prop :=
  exists v, In (EvWrite h v) log.

(** The server of the example simulator with the connection to the RPM
    variable broken for reads, for writes. *)
Definition rpm_unreadable : Server :=
  break_reads "ns=2;s=Machine.RPM" (server example_simulator).

Definition rpm_unwritable : Server :=
  break_writes "ns=2;s=Machine.RPM" (server example_simulator).

(** The modes [_tick] knows. *)
Definition known_modes : list string :=
  ["toggle"; "random_walk"; "random_choice"; "cycle"; "ramp"; "sine"].






(** A configuration with an int variable in a mode [_tick] does not know. *)
Definition hold_config : pyval :=
  VDict [("model", VDict [("variables", VList [
    VDict [("name", VStr "Count"); ("type", VStr "int");
           ("simulation", VDict [("mode", VStr "hold")])]])])].


(** A configuration with a negative interval. *)
Definition negative_interval_config : pyval :=
  VDict [("model", VDict [("variables", VList [
    VDict [("name", VStr "Running"); ("type", VStr "bool");
           ("simulation", VDict [("mode", VStr "toggle");
                                 ("interval_ms", VInt (-30000))])]])])].

(** The due times of the bindings after each round of [run]. *)
Fixpoint due_trace (pf : Platform) (world : list (Server -> Server))
    (sim : PlcSimulator) : list (list float) :=
  match world with
  | [] => []
  | act :: rest =>
      let sim' := fst (run pf [act] sim) in
      map next_due (bindings sim') :: due_trace pf rest sim'
  end.





(** A configuration with a sine whose phase leaves the floats: each tick
    adds [2 * pi * (-1e308 / 10)] to it. *)
Definition steep_sine_config : pyval :=
  VDict [("model", VDict [("variables", VList [
    VDict [("name", VStr "Wave"); ("type", VStr "float");
           ("simulation", VDict [("mode", VStr "sine"); ("period_ms", VInt 10);
                                 ("interval_ms", VInt (- 10 ^ 308))])]])])].

(** A configuration whose variable has an int of 4301 digits as its mode,
    the simulator it starts and its binding. *)
Definition numeric_mode_config : pyval :=
  VDict [("model", VDict [("variables", VList [
    VDict [("name", VStr "Count"); ("type", VStr "int");
           ("simulation", VDict [("mode", VInt (10 ^ 4300))])]])])].

Definition numeric_mode_simulator : PlcSimulator :=
  match start example_platform numeric_mode_config with
  | Some sim => sim
  | None => empty_simulator
  end.

Definition numeric_mode_binding : SimBinding :=
  nth 0 (bindings numeric_mode_simulator) rpm_binding.

(** ** Rounding to binary64, arithmetically

    A finite binary64 float is an integer number of units of [2 ^ -1074].
    [round_pos s n] is the float of sign [s] nearest to [n] units, ties to
    even: the mantissa keeps the 53 leading bits of [n]. *)

Definition round_shift (n : Z) : Z := Z.max (Zdigits2 n - 53) 0.

Definition round_up (n k : Z) : bool :=
  (2 ^ k <? 2 * (n mod 2 ^ k)) || ((2 ^ k =? 2 * (n mod 2 ^ k)) && Z.odd (n / 2 ^ k)).

Definition round_mantissa (n : Z) : Z :=
  n / 2 ^ round_shift n + (if round_up n (round_shift n) then 1 else 0).

Definition round_pos (s : bool) (n : Z) : spec_float :=
  let carry := round_mantissa n =? 2 ^ 53 in
  let m := if carry then 2 ^ 52 else round_mantissa n in
  let e := (if carry then round_shift n + 1 else round_shift n) - 1074 in
  if e <=? 971 then S754_finite s (Z.to_pos m) e else S754_infinity s.

(** The float nearest to [z] units. *)
Definition round_units (z : Z) : spec_float :=
  match z with
  | Z0 => S754_zero false
  | Zpos p => round_pos false (Zpos p)
  | Zneg p => round_pos true (Zpos p)
  end.

(** The units of a finite float. *)
Definition units (x : spec_float) : Z :=
  match x with
  | S754_finite s m e => cond_Zopp s (Zpos m * 2 ^ (e + 1074))
  | _ => 0
  end.

(** Zero or finite. *)
Definition sf_finite (x : spec_float) : bool :=
  match x with
  | S754_zero _ | S754_finite _ _ _ => true
  | _ => false
  end.


(** The mantissa and the exponent of [round_pos]. *)
Definition round_man (n : Z) : Z :=
  if round_mantissa n =? 2 ^ 53 then 2 ^ 52 else round_mantissa n.

Definition round_exp (n : Z) : Z :=
  (if round_mantissa n =? 2 ^ 53 then round_shift n + 1 else round_shift n) - 1074.

(** A float with the sign of its zero forgotten. *)
Definition zero_norm (x : spec_float) : spec_float :=
  match x with
  | S754_zero _ => S754_zero false
  | _ => x
  end.

(** ** The schedule of the bindings *)

(** The clock readings below the [n]-th are finite and never go back, as
    [time.monotonic] promises. *)
Definition steady_clock (pf : Platform) (n : nat) : bool :=
  forallb (fun k => is_finite (monotonic pf k)) (seq 0 n)
  && forallb (fun k => (monotonic pf k <=? monotonic pf (S k))%float) (seq 0 (pred n)).

(** The due time of [b] is a clock reading before the [c]-th plus the
    interval of [b], as [setup] and [_tick] compute it. *)
Definition scheduled (pf : Platform) (dt : Z) (c : nat) (b : SimBinding) : Prop :=
  exists (j : nat) (n : Z) (d : float),
    (j < c)%nat
    /\ py_int (dict_get (simulation b) "interval_ms" (VInt dt)) = Ok n
    /\ int_truediv n 1000 = Ok d
    /\ next_due b = (monotonic pf j + d)%float.

Definition on_schedule (pf : Platform) (sim : PlcSimulator) : Prop :=
  Forall (scheduled pf (default_tick_ms sim) (clock_reads sim)) (bindings sim).

(** A binding keeps its place and its due time does not go back. *)
Definition due_forward (bs bs' : list SimBinding) : Prop :=
  Forall2 (fun b b' => (next_due b <=? next_due b')%float = true) bs bs'.

Definition negative_interval_simulator : PlcSimulator :=
  match start example_platform negative_interval_config with
  | Some sim => sim
  | None => empty_simulator
  end.

(** ** Paths *)

(** The non-empty segments of a path, [[p for p in path.split("/") if p]]. *)
Definition segments (path : string) : list string :=
  filter (fun p => negb (String.eqb p "")) (PyStr.split "/" path).

(** A segment: not empty and without a slash. *)
Definition is_segment (w : string) : Prop :=
  w <> "" /\ PyStr.contains "/" w = false.

(** The containers of ["Machine/StackLight"], created on a fresh server. *)
Definition stack_light_objects : Server * gmap string string * result string :=
  _ensure_object_path (path_fuel "Machine/StackLight") Server_new
    {[ "" := objects_node ]} 2 "Machine/StackLight".

(** ** Descriptors and their bindings *)

(** The entries of [model.variables] that [setup] does not skip. *)
Fixpoint descriptors (variables : list pyval) : list (list (string * pyval)) :=
  match variables with
  | [] => []
  | VDict item :: rest => item :: descriptors rest
  | _ :: rest => descriptors rest
  end.

(** The descriptor asks for a simulation:
    [isinstance(sim_cfg, dict) and sim_cfg.get("mode")]. *)
Definition simulated (item : list (string * pyval)) : bool :=
  match dict_get item "simulation" VNone with
  | VDict sim_cfg => py_bool (dict_get sim_cfg "mode" VNone)
  | _ => false
  end.

(** The binding [b] is the one [setup] appends for the descriptor [item]. *)
Definition bound_to (ns_idx : Z) (root_name : pyval) (item : list (string * pyval))
    (b : SimBinding) : Prop :=
  node b = item_node_id ns_idx root_name item
  /\ node_id b = item_node_id ns_idx root_name item
  /\ dtype b = item_dtype item
  /\ dict_get item "simulation" VNone = VDict (simulation b)
  /\ cycle_index b = 0 /\ phase b = 0%float.

(** [model.root] and [model.variables] of a configuration, as [setup]
    reads them. *)
Definition config_root (config : pyval) : result pyval :=
  let* model := py_get config "model" (VDict []) in
  py_get model "root" (VStr "Machine").

Definition config_variables (config : pyval) : list pyval :=
  match (let* model := py_get config "model" (VDict []) in
         py_get model "variables" (VList [])) with
  | Ok (VList variables) => variables
  | _ => []
  end.

(** ** What a tick leaves alone *)

(** The fields of a binding no tick assigns. *)
Definition same_binding (b b' : SimBinding) : Prop :=
  node b' = node b /\ node_id b' = node_id b /\ dtype b' = dtype b
  /\ simulation b' = simulation b.

(** No binding of [bs] is bound to the node [h]. *)
Definition unbound (h : string) (bs : list SimBinding) : bool :=
  forallb (fun b => negb (String.eqb (node b) h)) bs.

(** What a node is apart from its value. *)
Definition node_shape (n : UaNode) : string * string * bool :=
  (ua_parent n, ua_name n, ua_writable n).

(** The binding has a readable interval and is not due at [now]. *)
Definition idle (dt : Z) (now : float) (b : SimBinding) : bool :=
  negb (raises (py_int (dict_get (simulation b) "interval_ms" (VInt dt))))
  && (now <? next_due b)%float.

(** A platform whose clock stands still. *)
Definition frozen_platform : Platform :=
  {| monotonic := fun _ => 100%float;
     random := fun _ => 0.5%float;
     randbits := fun k => k;
     libm_sin := fun x => x |}.

(** The Temperature and Alarm bindings of the example configuration. *)
Definition temperature_binding : SimBinding :=
  {| node := "ns=2;s=Machine.Temperature"; node_id := "ns=2;s=Machine.Temperature";
     dtype := "float";
     simulation := [("mode", VStr "random_walk"); ("min", VInt 20); ("max", VInt 110);
                    ("step", VFloat 1.5); ("interval_ms", VInt 1000)];
     next_due := 0; cycle_index := 0; phase := 0 |}.

Definition alarm_binding : SimBinding :=
  {| node := "ns=2;s=Machine.Alarm"; node_id := "ns=2;s=Machine.Alarm"; dtype := "bool";
     simulation := [("mode", VStr "random_choice");
                    ("values", VList [VBool true; VBool false; VBool false; VBool false]);
                    ("interval_ms", VInt 4000)];
     next_due := 0; cycle_index := 0; phase := 0 |}.

(** * Properties *)

(** ** Order of binary64 floats *)

Section FloatOrder.

Lemma SFcompare_refl_not_Lt (x : spec_float) : SFcompare x x <> Some Lt.
Proof.
  destruct x as [s|s| |s m e]; simpl; try destruct s; try discriminate.
  - rewrite Z.compare_refl, Pos.compare_cont_refl. discriminate.
  - rewrite Z.compare_refl, Pos.compare_cont_refl. discriminate.
Qed.

Lemma ltb_irrefl (x : float) : (x <? x)%float = false.
Proof.
  rewrite ltb_spec. unfold SFltb.
  destruct (SFcompare (Prim2SF x) (Prim2SF x)) as [[]|] eqn:E; try reflexivity.
  exfalso. exact (SFcompare_refl_not_Lt _ E).
Qed.

Lemma SFleb_ltb_trans (a b c : spec_float) :
  SFleb a b = true -> SFltb b c = true -> SFltb a c = true.
Proof.
  unfold SFleb, SFltb.
  destruct a as [sa|sa| |sa ma ea], b as [sb|sb| |sb mb eb], c as [sc|sc| |sc mc ec];
    simpl; try discriminate; try reflexivity;
    repeat match goal with s : bool |- _ => destruct s end;
    simpl; try discriminate; try reflexivity;
    rewrite ?Pos.compare_cont_spec; unfold Pos.switch_Eq;
    repeat match goal with
    | |- context [Z.compare ?x ?y] => destruct (Z.compare_spec x y)
    | |- context [Pos.compare ?x ?y] => destruct (Pos.compare_spec x y)
    end; simpl; try discriminate; try reflexivity; try lia.
Qed.

Lemma leb_ltb_trans (a b c : float) :
  (a <=? b)%float = true -> (b <? c)%float = true -> (a <? c)%float = true.
Proof. rewrite leb_spec, !ltb_spec. apply SFleb_ltb_trans. Qed.

Lemma SFleb_trans (a b c : spec_float) :
  SFleb a b = true -> SFleb b c = true -> SFleb a c = true.
Proof.
  unfold SFleb.
  destruct a as [sa|sa| |sa ma ea], b as [sb|sb| |sb mb eb], c as [sc|sc| |sc mc ec];
    simpl; try discriminate; try reflexivity;
    repeat match goal with s : bool |- _ => destruct s end;
    simpl; try discriminate; try reflexivity;
    rewrite ?Pos.compare_cont_spec; unfold Pos.switch_Eq;
    repeat match goal with
    | |- context [Z.compare ?x ?y] => destruct (Z.compare_spec x y)
    | |- context [Pos.compare ?x ?y] => destruct (Pos.compare_spec x y)
    end; simpl; try discriminate; try reflexivity; try lia.
Qed.

Lemma leb_trans (a b c : float) :
  (a <=? b)%float = true -> (b <=? c)%float = true -> (a <=? c)%float = true.
Proof. rewrite !leb_spec. apply SFleb_trans. Qed.

End FloatOrder.

(** ** Classification of floats *)

Lemma SFeqb_refl (x : spec_float) : x <> S754_nan -> SFeqb x x = true.
Proof.
  unfold SFeqb. destruct x as [s|s| |s m e]; simpl; try destruct s; try reflexivity;
    try congruence; intros _; rewrite Z.compare_refl, Pos.compare_cont_refl; reflexivity.
Qed.

Lemma is_nan_Prim2SF (f : float) :
  is_nan f = match Prim2SF f with S754_nan => true | _ => false end.
Proof.
  unfold is_nan. rewrite FloatAxioms.eqb_spec.
  destruct (Prim2SF f) eqn:E; try (rewrite SFeqb_refl by discriminate; reflexivity).
  reflexivity.
Qed.

Lemma is_infinity_Prim2SF (f : float) :
  is_infinity f = match Prim2SF f with S754_infinity _ => true | _ => false end.
Proof.
  unfold is_infinity. rewrite FloatAxioms.eqb_spec, abs_spec.
  replace (Prim2SF infinity) with (S754_infinity false) by (vm_compute; reflexivity).
  destruct (Prim2SF f) as [s|s| |s m e]; reflexivity.
Qed.



(** ** Exact conversions between ints and binary64 floats *)

Lemma digits2_pos_bounds (p : positive) :
  2 ^ (Z.pos (digits2_pos p) - 1) <= Z.pos p < 2 ^ Z.pos (digits2_pos p).
Proof.
  induction p as [p IH|p IH|]; cbn [digits2_pos].
  - rewrite Pos2Z.inj_succ.
    replace (Z.succ (Z.pos (digits2_pos p)) - 1) with (Z.succ (Z.pos (digits2_pos p) - 1)) by lia.
    rewrite !Z.pow_succ_r by lia. lia.
  - rewrite Pos2Z.inj_succ.
    replace (Z.succ (Z.pos (digits2_pos p)) - 1) with (Z.succ (Z.pos (digits2_pos p) - 1)) by lia.
    rewrite !Z.pow_succ_r by lia. lia.
  - cbn. lia.
Qed.

Lemma iter_xO_value (p d : positive) :
  Z.pos (Pos.iter xO p d) = Z.pos p * 2 ^ Z.pos d.
Proof.
  revert p. induction d as [|d IH] using Pos.peano_ind; intros p.
  - cbn. lia.
  - rewrite Pos.iter_succ, Pos2Z.inj_succ, Z.pow_succ_r by lia.
    rewrite Pos2Z.inj_xO, IH. lia.
Qed.

Lemma iter_xO_digits (p d : positive) :
  digits2_pos (Pos.iter xO p d) = (digits2_pos p + d)%positive.
Proof.
  revert p. induction d as [|d IH] using Pos.peano_ind; intros p.
  - cbn. lia.
  - rewrite Pos.iter_succ. cbn [digits2_pos]. rewrite IH. lia.
Qed.

Lemma fexp_normal (e : Z) : -1074 <= e -> fexp prec emax (53 + e) = e.
Proof. intros He. unfold fexp, SpecFloat.emin, prec, emax. lia. Qed.

(** A 53-bit mantissa with an exponent in range is a float as it stands. *)
Lemma binary_round_aux_exact (s : bool) (m : positive) (e : Z) :
  Z.pos (digits2_pos m) = 53 -> -1074 <= e <= 971 ->
  binary_round_aux prec emax s (Z.pos m) e loc_Exact = S754_finite s m e.
Proof.
  intros Hdg He. unfold binary_round_aux, shr_fexp. cbn [Zdigits2].
  rewrite Hdg, (fexp_normal e) by lia. rewrite Z.sub_diag.
  cbn [shr shr_record_of_loc shr_m loc_of_shr_record round_nearest_even Zdigits2].
  rewrite Hdg, (fexp_normal e) by lia. rewrite Z.sub_diag.
  cbn [shr shr_record_of_loc shr_m].
  replace (e <=? emax - prec) with true; [reflexivity|].
  symmetry. apply Z.leb_le. unfold emax, prec. lia.
Qed.

Lemma valid_binary_normal (s : bool) (m : positive) (e : Z) :
  Z.pos (digits2_pos m) = 53 -> -1074 <= e <= 971 ->
  valid_binary (S754_finite s m e) = true.
Proof.
  intros Hdg He. unfold SpecFloat.valid_binary, bounded, canonical_mantissa.
  rewrite Hdg, (fexp_normal e) by lia. rewrite Z.eqb_refl.
  apply Z.leb_le. unfold emax, prec. lia.
Qed.

(** Rounding an integer of at most 53 bits is exact: the mantissa is the
    integer shifted up to 53 bits. *)
Lemma binary_round_small (s : bool) (p : positive) :
  Z.pos p < 2 ^ 53 ->
  exists m e,
    binary_round prec emax s p 0 = S754_finite s m e
    /\ valid_binary (S754_finite s m e) = true
    /\ -52 <= e <= 0 /\ Z.pos m = Z.pos p * 2 ^ (- e).
Proof.
  intros Hp. pose proof (digits2_pos_bounds p) as [Hlo Hhi].
  assert (Hd : Z.pos (digits2_pos p) <= 53).
  { destruct (Z_le_gt_dec (Z.pos (digits2_pos p)) 53) as [H|H]; [exact H|exfalso].
    assert (2 ^ 53 <= 2 ^ (Z.pos (digits2_pos p) - 1)) by (apply Z.pow_le_mono_r; lia).
    lia. }
  unfold binary_round.
  assert (Hfexp : fexp prec emax (Z.pos (digits2_pos p) + 0) = Z.pos (digits2_pos p) - 53).
  { unfold fexp, SpecFloat.emin, prec, emax. lia. }
  rewrite Hfexp. unfold shl_align.
  destruct (Z.pos (digits2_pos p) - 53 - 0) as [|q|q] eqn:Eq; try lia.
  - exists p, 0. assert (Hdg : Z.pos (digits2_pos p) = 53) by lia.
    split; [apply binary_round_aux_exact; [exact Hdg|lia]|].
    split; [apply valid_binary_normal; [exact Hdg|lia]|].
    split; [lia|]. cbn. lia.
  - exists (Pos.iter xO p q), (Z.pos (digits2_pos p) - 53).
    assert (Hdg : Z.pos (digits2_pos (Pos.iter xO p q)) = 53).
    { rewrite iter_xO_digits, Pos2Z.inj_add. lia. }
    split; [apply binary_round_aux_exact; [exact Hdg|lia]|].
    split; [apply valid_binary_normal; [exact Hdg|lia]|].
    split; [lia|]. rewrite iter_xO_value. f_equal. f_equal. lia.
Qed.

Lemma is_infinity_SF2Prim_finite (s : bool) (m : positive) (e : Z) :
  valid_binary (S754_finite s m e) = true ->
  is_infinity (SF2Prim (S754_finite s m e)) = false.
Proof.
  intros Hv. rewrite is_infinity_Prim2SF, Prim2SF_SF2Prim by exact Hv. reflexivity.
Qed.

(** [int(float(n))] is [n] for every int that fits 53 bits. *)
Lemma int_float_roundtrip (n : Z) :
  Z.abs n <= 2 ^ 53 ->
  exists f, PyNum.float_of_int n = Ok f /\ PyNum.int_of_float f = Ok n.
Proof.
  intros Hn. unfold PyNum.float_of_int.
  destruct (Z.eq_dec (Z.abs n) (2 ^ 53)) as [Heq|Hne].
  { destruct n as [|p|p]; cbn in Heq; try lia.
    - injection Heq as ->. eexists. split; vm_compute; reflexivity.
    - injection Heq as ->. eexists. split; vm_compute; reflexivity. }
  destruct n as [|p|p].
  - eexists. split; vm_compute; reflexivity.
  - destruct (binary_round_small false p) as (m & e & Hr & Hv & He & Hm); [lia|].
    cbn [binary_normalize]. rewrite Hr, (is_infinity_SF2Prim_finite _ _ _ Hv).
    eexists. split; [reflexivity|].
    unfold PyNum.int_of_float. rewrite Prim2SF_SF2Prim by exact Hv.
    f_equal. rewrite <- (Z.opp_involutive e), Z.shiftl_opp_r, Z.shiftr_div_pow2 by lia.
    rewrite Hm. apply Z.div_mul. apply Z.pow_nonzero; lia.
  - destruct (binary_round_small true p) as (m & e & Hr & Hv & He & Hm); [lia|].
    cbn [binary_normalize]. rewrite Hr, (is_infinity_SF2Prim_finite _ _ _ Hv).
    eexists. split; [reflexivity|].
    unfold PyNum.int_of_float. rewrite Prim2SF_SF2Prim by exact Hv.
    f_equal. rewrite <- (Z.opp_involutive e), Z.shiftl_opp_r, Z.shiftr_div_pow2 by lia.
    rewrite Hm, Z.div_mul by (apply Z.pow_nonzero; lia). reflexivity.
Qed.

(** ** Rounding to binary64, arithmetically *)

Lemma iter_pos_nat {A : Type} (f : A -> A) (n : positive) (x : A) :
  SpecFloat.iter_pos f n x = Nat.iter (Pos.to_nat n) f x.
Proof.
  revert x. induction n as [n IH|n IH|]; intros x; cbn [SpecFloat.iter_pos].
  - rewrite !IH, Pos2Nat.inj_xI.
    replace (S (2 * Pos.to_nat n)) with (Pos.to_nat n + (Pos.to_nat n + 1))%nat by lia.
    rewrite !Nat.iter_add. reflexivity.
  - rewrite !IH, Pos2Nat.inj_xO.
    replace (2 * Pos.to_nat n)%nat with (Pos.to_nat n + Pos.to_nat n)%nat by lia.
    rewrite Nat.iter_add. reflexivity.
  - reflexivity.
Qed.

Lemma shr_1_spec (m : Z) (r s : bool) :
  0 <= m ->
  shr_1 {| shr_m := m; shr_r := r; shr_s := s |}
  = {| shr_m := m / 2; shr_r := Z.odd m; shr_s := r || s |}.
Proof.
  intros Hm. destruct m as [|p|p]; [reflexivity| |lia].
  destruct p as [p|p|]; cbn [shr_1].
  - f_equal. rewrite Pos2Z.inj_xI. symmetry.
    replace (2 * Z.pos p + 1) with (1 + Z.pos p * 2) by lia.
    rewrite Z.div_add by lia. reflexivity.
  - f_equal. rewrite Pos2Z.inj_xO. symmetry.
    replace (2 * Z.pos p) with (Z.pos p * 2) by lia. apply Z.div_mul. lia.
  - reflexivity.
Qed.

(** [j] right shifts of an exact mantissa: the quotient, the last bit
    shifted out and whether anything below it was set. *)
Lemma shr_iter (m : Z) (j : nat) :
  0 <= m ->
  Nat.iter (S j) shr_1 {| shr_m := m; shr_r := false; shr_s := false |}
  = {| shr_m := m / 2 ^ Z.of_nat (S j);
       shr_r := Z.odd (m / 2 ^ Z.of_nat j);
       shr_s := negb (m mod 2 ^ Z.of_nat j =? 0) |}.
Proof.
  intros Hm. induction j as [|j IH].
  - cbn [Nat.iter]. rewrite shr_1_spec by exact Hm. f_equal.
    + change (2 ^ Z.of_nat 0) with 1. rewrite Z.div_1_r. reflexivity.
    + change (2 ^ Z.of_nat 0) with 1. rewrite Z.mod_1_r. reflexivity.
  - rewrite Nat.iter_succ, IH.
    rewrite shr_1_spec by (apply Z.div_pos; [exact Hm|apply Z.pow_pos_nonneg; lia]).
    assert (Hp : 0 < 2 ^ Z.of_nat j) by (apply Z.pow_pos_nonneg; lia).
    assert (Hs : 2 ^ Z.of_nat (S j) = 2 ^ Z.of_nat j * 2).
    { rewrite Nat2Z.inj_succ, Z.pow_succ_r by lia. lia. }
    f_equal.
    + rewrite (Nat2Z.inj_succ (S j)), Z.pow_succ_r by lia.
      rewrite (Z.mul_comm 2), <- Z.div_div by lia. reflexivity.
    + rewrite Hs, Z.rem_mul_r by lia.
      destruct (Z.odd (m / 2 ^ Z.of_nat j)) eqn:Eo.
      * assert (Hmod : (m / 2 ^ Z.of_nat j) mod 2 = 1).
        { rewrite Zmod_odd, Eo. reflexivity. }
        rewrite Hmod. cbn [orb]. symmetry. apply negb_true_iff. apply Z.eqb_neq.
        pose proof (Z.mod_pos_bound m (2 ^ Z.of_nat j) Hp). lia.
      * assert (Hmod : (m / 2 ^ Z.of_nat j) mod 2 = 0).
        { rewrite Zmod_odd, Eo. reflexivity. }
        rewrite Hmod, Z.mul_0_r, Z.add_0_r. reflexivity.
Qed.

Lemma Zdigits2_bounds (n : Z) :
  0 < n -> 0 < Zdigits2 n /\ 2 ^ (Zdigits2 n - 1) <= n < 2 ^ Zdigits2 n.
Proof.
  destruct n as [|p|p]; try lia. intros _. cbn [Zdigits2].
  split; [lia|apply digits2_pos_bounds].
Qed.

Lemma Zdigits2_unique (n d : Z) :
  2 ^ (d - 1) <= n < 2 ^ d -> 0 < d -> Zdigits2 n = d.
Proof.
  intros [Hlo Hhi] Hd.
  assert (Hn : 0 < n).
  { assert (0 < 2 ^ (d - 1)) by (apply Z.pow_pos_nonneg; lia). lia. }
  destruct (Zdigits2_bounds n Hn) as [Hd' [Hlo' Hhi']].
  destruct (Z.lt_trichotomy (Zdigits2 n) d) as [H|[H|H]]; [exfalso|exact H|exfalso].
  - assert (2 ^ Zdigits2 n <= 2 ^ (d - 1)) by (apply Z.pow_le_mono_r; lia). lia.
  - assert (2 ^ d <= 2 ^ (Zdigits2 n - 1)) by (apply Z.pow_le_mono_r; lia). lia.
Qed.

Lemma Zdigits2_mul_pow2 (n j : Z) :
  0 < n -> 0 <= j -> Zdigits2 (n * 2 ^ j) = Zdigits2 n + j.
Proof.
  intros Hn Hj. destruct (Zdigits2_bounds n Hn) as [Hd [Hlo Hhi]].
  assert (Hp : 0 < 2 ^ j) by (apply Z.pow_pos_nonneg; lia).
  apply Zdigits2_unique; [|lia].
  replace (Zdigits2 n + j - 1) with (Zdigits2 n - 1 + j) by lia.
  rewrite !Z.pow_add_r by lia. split; nia.
Qed.

Lemma Zdigits2_div_pow2 (n j : Z) :
  0 < n -> 0 <= j < Zdigits2 n -> Zdigits2 (n / 2 ^ j) = Zdigits2 n - j.
Proof.
  intros Hn Hj. destruct (Zdigits2_bounds n Hn) as [Hd [Hlo Hhi]].
  assert (Hp : 0 < 2 ^ j) by (apply Z.pow_pos_nonneg; lia).
  apply Zdigits2_unique; [|lia]. split.
  - apply Z.div_le_lower_bound; [lia|].
    rewrite <- Z.pow_add_r by lia. replace (j + (Zdigits2 n - j - 1)) with (Zdigits2 n - 1) by lia.
    exact Hlo.
  - apply Z.div_lt_upper_bound; [lia|].
    rewrite <- Z.pow_add_r by lia. replace (j + (Zdigits2 n - j)) with (Zdigits2 n) by lia.
    exact Hhi.
Qed.

Lemma Zdigits2_mono (a b : Z) : 0 < a <= b -> Zdigits2 a <= Zdigits2 b.
Proof.
  intros [Ha Hab].
  destruct (Zdigits2_bounds a Ha) as [Hda [Hloa Hhia]].
  destruct (Zdigits2_bounds b) as [Hdb [Hlob Hhib]]; [lia|].
  destruct (Z_le_gt_dec (Zdigits2 a) (Zdigits2 b)) as [H|H]; [exact H|exfalso].
  assert (2 ^ Zdigits2 b <= 2 ^ (Zdigits2 a - 1)) by (apply Z.pow_le_mono_r; lia). lia.
Qed.

Lemma fexp_spec (e : Z) : fexp prec emax e = Z.max (e - 53) (-1074).
Proof. reflexivity. Qed.

(** Aligning a mantissa to a lower exponent keeps the value. *)
Lemma shl_align_spec (m : positive) (e e' : Z) :
  snd (shl_align m e e') = Z.min e e'
  /\ Z.pos (fst (shl_align m e e')) = Z.pos m * 2 ^ (e - Z.min e e').
Proof.
  unfold shl_align. destruct (e' - e) as [|d|d] eqn:E; cbn [fst snd].
  - replace (Z.min e e') with e by lia. rewrite Z.sub_diag. cbn. lia.
  - replace (Z.min e e') with e by lia. rewrite Z.sub_diag. cbn. lia.
  - replace (Z.min e e') with e' by lia. split; [reflexivity|].
    rewrite iter_xO_value. f_equal. f_equal. lia.
Qed.

(** Shifting an exact mantissa right by [n] places. *)
Lemma shr_exact (m e n : Z) :
  0 <= m -> 0 < n ->
  shr {| shr_m := m; shr_r := false; shr_s := false |} e n
  = ({| shr_m := m / 2 ^ n;
        shr_r := Z.odd (m / 2 ^ (n - 1));
        shr_s := negb (m mod 2 ^ (n - 1) =? 0) |}, e + n).
Proof.
  intros Hm Hn. destruct n as [|p|p]; try lia. cbn [shr].
  rewrite iter_pos_nat.
  destruct (Pos2Nat.is_succ p) as [j Hj]. rewrite Hj, shr_iter by exact Hm.
  assert (H1 : Z.of_nat (S j) = Z.pos p) by (rewrite <- Hj; apply positive_nat_Z).
  assert (H2 : Z.of_nat j = Z.pos p - 1) by lia.
  rewrite H1, H2. reflexivity.
Qed.

Lemma shr_none (mrs : shr_record) (e n : Z) : n <= 0 -> shr mrs e n = (mrs, e).
Proof. intros Hn. destruct n as [|p|p]; try lia; reflexivity. Qed.

(** The last bit shifted out and the bits below it against one half. *)
Lemma half_compare (m n : Z) :
  0 <= m -> 0 < n ->
  let r := m mod 2 ^ n in
  let b := Z.odd (m / 2 ^ (n - 1)) in
  let st := negb (m mod 2 ^ (n - 1) =? 0) in
  (2 ^ n <? 2 * r) = b && st /\ (2 ^ n =? 2 * r) = b && negb st.
Proof.
  intros Hm Hn r b st.
  assert (Hp : 0 < 2 ^ (n - 1)) by (apply Z.pow_pos_nonneg; lia).
  assert (Hs : 2 ^ n = 2 ^ (n - 1) * 2).
  { replace n with (Z.succ (n - 1)) at 1 by lia. rewrite Z.pow_succ_r by lia. lia. }
  assert (Hr : r = m mod 2 ^ (n - 1) + 2 ^ (n - 1) * ((m / 2 ^ (n - 1)) mod 2)).
  { unfold r. rewrite Hs, Z.rem_mul_r by lia. reflexivity. }
  pose proof (Z.mod_pos_bound m (2 ^ (n - 1)) Hp) as Ht.
  rewrite Zmod_odd in Hr. fold b in Hr. subst st.
  destruct b; destruct (m mod 2 ^ (n - 1) =? 0) eqn:E0; cbn [negb andb];
    [apply Z.eqb_eq in E0|apply Z.eqb_neq in E0|apply Z.eqb_eq in E0|apply Z.eqb_neq in E0];
    split;
    first [apply Z.ltb_lt; lia | apply Z.ltb_ge; lia | apply Z.eqb_eq; lia | apply Z.eqb_neq; lia].
Qed.

Lemma ltb_scale (a b c : Z) : 0 < c -> (a * c <? b * c) = (a <? b).
Proof.
  intros Hc. destruct (a <? b) eqn:E.
  - apply Z.ltb_lt in E. apply Z.ltb_lt. nia.
  - apply Z.ltb_ge in E. apply Z.ltb_ge. nia.
Qed.

Lemma eqb_scale (a b c : Z) : 0 < c -> (a * c =? b * c) = (a =? b).
Proof.
  intros Hc. destruct (a =? b) eqn:E.
  - apply Z.eqb_eq in E. apply Z.eqb_eq. nia.
  - apply Z.eqb_neq in E. apply Z.eqb_neq. nia.
Qed.

(** [round_up] does not depend on the unit the number is written in. *)
Lemma round_up_scale (m n j : Z) :
  0 <= m -> 0 <= n -> 0 <= j ->
  round_up (m * 2 ^ j) (n + j) = round_up m n.
Proof.
  intros Hm Hn Hj. unfold round_up.
  assert (Hc : 0 < 2 ^ j) by (apply Z.pow_pos_nonneg; lia).
  assert (Hp : 0 < 2 ^ n) by (apply Z.pow_pos_nonneg; lia).
  rewrite Z.pow_add_r by lia.
  rewrite Z.mul_mod_distr_r by lia.
  rewrite Z.div_mul_cancel_r by lia.
  rewrite (Z.mul_assoc 2), ltb_scale, eqb_scale by lia. reflexivity.
Qed.

(** Rounding to nearest even after a right shift of [n] places. *)
Lemma round_nearest_even_shr (m n : Z) :
  0 <= m -> 0 < n ->
  let mrs := {| shr_m := m / 2 ^ n;
                shr_r := Z.odd (m / 2 ^ (n - 1));
                shr_s := negb (m mod 2 ^ (n - 1) =? 0) |} in
  round_nearest_even (shr_m mrs) (loc_of_shr_record mrs)
  = m / 2 ^ n + (if round_up m n then 1 else 0).
Proof.
  intros Hm Hn mrs. subst mrs. unfold round_up.
  destruct (half_compare m n Hm Hn) as [-> ->].
  cbn [shr_m loc_of_shr_record].
  destruct (Z.odd (m / 2 ^ (n - 1))); destruct (m mod 2 ^ (n - 1) =? 0);
    cbn [negb andb orb loc_of_shr_record round_nearest_even]; try lia.
  rewrite <- Z.negb_odd. destruct (Z.odd (m / 2 ^ n)); cbn [negb]; lia.
Qed.

Lemma round_up_exact (p k : Z) : 0 <= k -> round_up (p * 2 ^ k) k = false.
Proof.
  intros Hk. unfold round_up.
  assert (Hp : 0 < 2 ^ k) by (apply Z.pow_pos_nonneg; lia).
  rewrite Z.mod_mul by lia. rewrite Z.mul_0_r.
  replace (2 ^ k <? 0) with false by (symmetry; apply Z.ltb_ge; lia).
  replace (2 ^ k =? 0) with false by (symmetry; apply Z.eqb_neq; lia).
  reflexivity.
Qed.

(** [binary_round_aux] on an exact mantissa that is not above its
    canonical exponent is [round_pos] of its units. *)
Lemma binary_round_aux_units (s : bool) (p : positive) (ex : Z) :
  -1074 <= ex -> ex <= fexp prec emax (Zdigits2 (Z.pos p) + ex) ->
  binary_round_aux prec emax s (Z.pos p) ex loc_Exact
  = round_pos s (Z.pos p * 2 ^ (ex + 1074)).
Proof.
  intros Hex Hcan.
  set (dg := Zdigits2 (Z.pos p)) in *.
  destruct (Zdigits2_bounds (Z.pos p)) as [Hdg [Hlo Hhi]]; [lia|]. fold dg in Hdg, Hlo, Hhi.
  assert (Hc : 0 < 2 ^ (ex + 1074)) by (apply Z.pow_pos_nonneg; lia).
  assert (HdN : Zdigits2 (Z.pos p * 2 ^ (ex + 1074)) = dg + ex + 1074).
  { rewrite Zdigits2_mul_pow2 by lia. fold dg. lia. }
  assert (Hk : round_shift (Z.pos p * 2 ^ (ex + 1074))
               = fexp prec emax (dg + ex) + 1074).
  { unfold round_shift. rewrite HdN, fexp_spec. lia. }
  rewrite fexp_spec in Hcan.
  unfold binary_round_aux, shr_fexp. fold dg. cbn [shr_record_of_loc].
  destruct (Z.eq_dec (fexp prec emax (dg + ex)) ex) as [Heq|Hne].
  - (* the mantissa is canonical: nothing is shifted out *)
    assert (Hdg53 : dg <= 53) by (rewrite fexp_spec in Heq; lia).
    assert (Hp53 : Z.pos p < 2 ^ 53).
    { assert (2 ^ dg <= 2 ^ 53) by (apply Z.pow_le_mono_r; lia). lia. }
    rewrite shr_none by lia.
    cbn [shr_m loc_of_shr_record round_nearest_even shr_record_of_loc].
    fold dg. rewrite shr_none by lia. cbn [shr_m].
    unfold round_pos, round_mantissa. rewrite Hk, Heq.
    rewrite round_up_exact, Z.div_mul by lia. rewrite Z.add_0_r.
    replace (Z.pos p =? 2 ^ 53) with false by (symmetry; apply Z.eqb_neq; lia).
    replace (ex + 1074 - 1074) with ex by lia. reflexivity.
  - (* bits are shifted out and the mantissa is rounded *)
    assert (HE : fexp prec emax (dg + ex) = dg + ex - 53)
      by (rewrite fexp_spec in Hne |- *; lia).
    set (n := dg - 53).
    assert (Hn : 0 < n) by (unfold n; rewrite fexp_spec in Hne; lia).
    replace (fexp prec emax (dg + ex) - ex) with n by (unfold n; lia).
    rewrite shr_exact by lia.
    rewrite round_nearest_even_shr by lia.
    assert (Hq : Zdigits2 (Z.pos p / 2 ^ n) = 53).
    { rewrite Zdigits2_div_pow2 by (fold dg; lia). fold dg. unfold n. lia. }
    destruct (Zdigits2_bounds (Z.pos p / 2 ^ n)) as [_ [Hqlo Hqhi]].
    { apply Z.div_str_pos. split; [apply Z.pow_pos_nonneg; lia|].
      assert (2 ^ n <= 2 ^ (dg - 1)) by (apply Z.pow_le_mono_r; unfold n; lia). lia. }
    rewrite Hq in Hqlo, Hqhi.
    unfold round_pos, round_mantissa. rewrite Hk, HE.
    replace (dg + ex - 53 + 1074) with (n + (ex + 1074)) by (unfold n; lia).
    rewrite round_up_scale by lia.
    rewrite (Z.pow_add_r 2 n) by lia.
    rewrite Z.div_mul_cancel_r by lia.
    set (q' := Z.pos p / 2 ^ n + (if round_up (Z.pos p) n then 1 else 0)).
    assert (Hq' : 2 ^ 52 <= q' <= 2 ^ 53).
    { unfold q'. change (53 - 1) with 52 in Hqlo. destruct (round_up (Z.pos p) n); lia. }
    replace (ex + n) with (n + (ex + 1074) - 1074) by lia.
    destruct (q' =? 2 ^ 53) eqn:Ecarry.
    + apply Z.eqb_eq in Ecarry. rewrite Ecarry.
      replace (Zdigits2 (2 ^ 53)) with 54 by reflexivity.
      replace (fexp prec emax (54 + (n + (ex + 1074) - 1074)) - (n + (ex + 1074) - 1074))
        with 1 by (rewrite fexp_spec; lia).
      rewrite shr_exact by lia. cbn [shr_m].
      replace (n + (ex + 1074) - 1074 + 1) with (n + (ex + 1074) + 1 - 1074) by lia.
      reflexivity.
    + apply Z.eqb_neq in Ecarry.
      assert (Hdq : Zdigits2 q' = 53) by (apply Zdigits2_unique; [change (53 - 1) with 52|]; lia).
      rewrite Hdq.
      rewrite shr_none by (rewrite fexp_spec; lia). cbn [shr_m].
      destruct q' as [|q|q]; try lia. reflexivity.
Qed.

(** [binary_round] is [round_pos] of the units of its argument. *)
Lemma binary_round_units (s : bool) (m : positive) (e : Z) :
  -1074 <= e ->
  binary_round prec emax s m e = round_pos s (Z.pos m * 2 ^ (e + 1074)).
Proof.
  intros He. unfold binary_round.
  set (E0 := fexp prec emax (Z.pos (digits2_pos m) + e)).
  assert (HE0 : -1074 <= E0) by (unfold E0; rewrite fexp_spec; lia).
  destruct (shl_align_spec m e E0) as [Hez Hmz].
  destruct (shl_align m e E0) as [mz ez]. cbn [fst snd] in Hez, Hmz. subst ez.
  assert (Hdg : Zdigits2 (Z.pos mz) = Z.pos (digits2_pos m) + (e - Z.min e E0)).
  { rewrite Hmz, Zdigits2_mul_pow2 by lia. reflexivity. }
  rewrite binary_round_aux_units.
  - f_equal. rewrite Hmz, <- Z.mul_assoc, <- Z.pow_add_r by lia. f_equal. f_equal. lia.
  - lia.
  - rewrite Hdg.
    replace (Z.pos (digits2_pos m) + (e - Z.min e E0) + Z.min e E0)
      with (Z.pos (digits2_pos m) + e) by lia.
    fold E0. lia.
Qed.

Lemma round_units_pos (z : Z) : 0 < z -> round_units z = round_pos false z.
Proof. destruct z; try lia. reflexivity. Qed.

Lemma round_units_neg (z : Z) : z < 0 -> round_units z = round_pos true (- z).
Proof. destruct z; try lia. reflexivity. Qed.

Lemma binary_normalize_units (z e : Z) :
  -1074 <= e ->
  binary_normalize prec emax z e false = round_units (z * 2 ^ (e + 1074)).
Proof.
  intros He.
  assert (Hc : 0 < 2 ^ (e + 1074)) by (apply Z.pow_pos_nonneg; lia).
  destruct z as [|p|p]; cbn [binary_normalize].
  - reflexivity.
  - rewrite binary_round_units, round_units_pos by lia. reflexivity.
  - rewrite binary_round_units, round_units_neg by lia.
    f_equal. lia.
Qed.

(** What validity says of a finite float. *)
Lemma valid_finite (s : bool) (m : positive) (e : Z) :
  valid_binary (S754_finite s m e) = true ->
  fexp prec emax (Z.pos (digits2_pos m) + e) = e /\ -1074 <= e <= 971
  /\ Z.pos (digits2_pos m) <= 53
  /\ (-1074 < e -> Z.pos (digits2_pos m) = 53).
Proof.
  unfold SpecFloat.valid_binary, bounded, canonical_mantissa.
  intros H. apply andb_prop in H as [H1 H2].
  apply Z.eqb_eq in H1. apply Z.leb_le in H2.
  change (emax - prec) with 971 in H2.
  split; [exact H1|]. rewrite fexp_spec in H1. lia.
Qed.

(** A valid float is the rounding of its own units. *)
Lemma round_pos_valid (s : bool) (m : positive) (e : Z) :
  valid_binary (S754_finite s m e) = true ->
  round_pos s (Z.pos m * 2 ^ (e + 1074)) = S754_finite s m e.
Proof.
  intros Hv. destruct (valid_finite s m e Hv) as (Hcan & He & Hdg & _).
  rewrite <- binary_round_aux_units by (cbn [Zdigits2]; lia).
  unfold binary_round_aux, shr_fexp. cbn [Zdigits2 shr_record_of_loc].
  rewrite Hcan, shr_none by lia.
  cbn [shr_m loc_of_shr_record round_nearest_even shr_record_of_loc Zdigits2].
  rewrite Hcan, shr_none by lia. cbn [shr_m].
  replace (e <=? emax - prec) with true; [reflexivity|].
  symmetry. apply Z.leb_le. change (emax - prec) with 971. lia.
Qed.

Lemma round_units_valid (x : spec_float) :
  valid_binary x = true -> sf_finite x = true ->
  round_units (units x) = x \/ (exists s, x = S754_zero s).
Proof.
  intros Hv Hf. destruct x as [s|s| |s m e]; try discriminate.
  - right. eauto.
  - left. destruct (valid_finite s m e Hv) as (_ & He & _).
    assert (Hc : 0 < 2 ^ (e + 1074)) by (apply Z.pow_pos_nonneg; lia).
    cbn [units]. destruct s; cbn [cond_Zopp].
    + rewrite round_units_neg by lia. rewrite Z.opp_involutive. apply round_pos_valid. exact Hv.
    + rewrite round_units_pos by lia. apply round_pos_valid. exact Hv.
Qed.

(** The sum of two finite floats is the rounding of the sum of their
    units. *)
Lemma SFadd_units (sx : bool) (mx : positive) (ex : Z) (sy : bool) (my : positive) (ey : Z) :
  -1074 <= ex -> -1074 <= ey ->
  SFadd prec emax (S754_finite sx mx ex) (S754_finite sy my ey)
  = round_units (units (S754_finite sx mx ex) + units (S754_finite sy my ey)).
Proof.
  intros Hex Hey. cbn [SFadd units].
  destruct (shl_align_spec mx ex (Z.min ex ey)) as [_ Hx].
  destruct (shl_align_spec my ey (Z.min ex ey)) as [_ Hy].
  rewrite binary_normalize_units by lia. f_equal.
  rewrite Z.mul_add_distr_r.
  assert (Hc : forall (s : bool) (a c : Z), cond_Zopp s a * c = cond_Zopp s (a * c)).
  { intros [] a c; cbn [cond_Zopp]; lia. }
  rewrite !Hc, Hx, Hy.
  replace (Z.min ex (Z.min ex ey)) with (Z.min ex ey) by lia.
  replace (Z.min ey (Z.min ex ey)) with (Z.min ex ey) by lia.
  rewrite <- !Z.mul_assoc, <- !Z.pow_add_r by lia.
  replace (ex - Z.min ex ey + (Z.min ex ey + 1074)) with (ex + 1074) by lia.
  replace (ey - Z.min ex ey + (Z.min ex ey + 1074)) with (ey + 1074) by lia.
  reflexivity.
Qed.

(** *** Rounding is monotone *)

Lemma round_pos_shape (s : bool) (n : Z) :
  round_pos s n
  = if round_exp n <=? 971 then S754_finite s (Z.to_pos (round_man n)) (round_exp n)
    else S754_infinity s.
Proof. reflexivity. Qed.

Lemma round_shift_mono (n1 n2 : Z) : 0 < n1 <= n2 -> round_shift n1 <= round_shift n2.
Proof.
  intros H. unfold round_shift. pose proof (Zdigits2_mono n1 n2 H). lia.
Qed.

Lemma round_shift_nonneg (n : Z) : 0 <= round_shift n.
Proof. unfold round_shift. lia. Qed.

(** The quotient kept by the shift has 53 bits, or is the number itself. *)
Lemma round_quotient (n : Z) :
  0 < n ->
  let k := round_shift n in
  (k = 0 /\ n / 2 ^ k = n /\ n < 2 ^ 53 /\ round_up n k = false)
  \/ (0 < k /\ 2 ^ 52 <= n / 2 ^ k < 2 ^ 53).
Proof.
  intros Hn k. destruct (Zdigits2_bounds n Hn) as [Hd [Hlo Hhi]].
  unfold k, round_shift. destruct (Z_le_gt_dec (Zdigits2 n) 53) as [H|H].
  - left. replace (Z.max (Zdigits2 n - 53) 0) with 0 by lia.
    change (2 ^ 0) with 1. rewrite Z.div_1_r.
    split; [reflexivity|]. split; [reflexivity|]. split.
    + assert (2 ^ Zdigits2 n <= 2 ^ 53) by (apply Z.pow_le_mono_r; lia). lia.
    + unfold round_up. change (2 ^ 0) with 1. rewrite Z.mod_1_r. reflexivity.
  - right. replace (Z.max (Zdigits2 n - 53) 0) with (Zdigits2 n - 53) by lia.
    split; [lia|].
    assert (Hq : Zdigits2 (n / 2 ^ (Zdigits2 n - 53)) = 53).
    { rewrite Zdigits2_div_pow2 by lia. lia. }
    destruct (Zdigits2_bounds (n / 2 ^ (Zdigits2 n - 53))) as [_ Hb].
    { apply Z.div_str_pos. split; [apply Z.pow_pos_nonneg; lia|].
      assert (2 ^ (Zdigits2 n - 53) <= 2 ^ (Zdigits2 n - 1)) by (apply Z.pow_le_mono_r; lia).
      lia. }
    rewrite Hq in Hb. exact Hb.
Qed.

Lemma round_mantissa_range (n : Z) :
  0 < n ->
  1 <= round_mantissa n <= 2 ^ 53
  /\ (0 < round_shift n -> 2 ^ 52 <= round_mantissa n).
Proof.
  intros Hn. unfold round_mantissa.
  destruct (round_quotient n Hn) as [(Hk & Hq & Hlt & Hup)|(Hk & Hq)].
  - rewrite Hup, Hq. lia.
  - destruct (round_up n (round_shift n)); lia.
Qed.

Lemma round_man_range (n : Z) : 0 < n -> 1 <= round_man n < 2 ^ 53.
Proof.
  intros Hn. unfold round_man. destruct (round_mantissa_range n Hn) as [H _].
  destruct (round_mantissa n =? 2 ^ 53) eqn:E; [lia|].
  apply Z.eqb_neq in E. lia.
Qed.

(** With the same shift, the rounded mantissa is monotone. *)
Lemma round_mantissa_mono (n1 n2 : Z) :
  0 < n1 <= n2 -> round_shift n1 = round_shift n2 ->
  round_mantissa n1 <= round_mantissa n2.
Proof.
  intros [Hn1 Hle] Hk. unfold round_mantissa. rewrite <- Hk.
  set (k := round_shift n1).
  assert (Hp : 0 < 2 ^ k) by (apply Z.pow_pos_nonneg; [lia|apply round_shift_nonneg]).
  assert (Hq : n1 / 2 ^ k <= n2 / 2 ^ k) by (apply Z.div_le_mono; lia).
  destruct (Z.eq_dec (n1 / 2 ^ k) (n2 / 2 ^ k)) as [Heq|Hne].
  - assert (Hr : n1 mod 2 ^ k <= n2 mod 2 ^ k).
    { rewrite !Z.mod_eq by lia. rewrite Heq. lia. }
    unfold round_up. rewrite Heq.
    destruct (2 ^ k <? 2 * (n1 mod 2 ^ k)) eqn:E1.
    + apply Z.ltb_lt in E1.
      replace (2 ^ k <? 2 * (n2 mod 2 ^ k)) with true by (symmetry; apply Z.ltb_lt; lia).
      cbn [orb]. lia.
    + cbn [orb]. destruct (2 ^ k =? 2 * (n1 mod 2 ^ k)) eqn:E2; cbn [andb].
      * apply Z.eqb_eq in E2.
        destruct (2 ^ k <? 2 * (n2 mod 2 ^ k)) eqn:E3; cbn [orb].
        { destruct (Z.odd (n2 / 2 ^ k)); lia. }
        apply Z.ltb_ge in E3.
        replace (2 ^ k =? 2 * (n2 mod 2 ^ k)) with true by (symmetry; apply Z.eqb_eq; lia).
        cbn [andb]. lia.
      * destruct ((2 ^ k <? 2 * (n2 mod 2 ^ k))
                  || (2 ^ k =? 2 * (n2 mod 2 ^ k)) && Z.odd (n2 / 2 ^ k)); lia.
  - destruct (round_up n1 k); destruct (round_up n2 k); lia.
Qed.

(** The rounded exponent and mantissa grow together with the number. *)
Lemma round_lex_mono (n1 n2 : Z) :
  0 < n1 <= n2 ->
  round_exp n1 < round_exp n2
  \/ (round_exp n1 = round_exp n2 /\ round_man n1 <= round_man n2).
Proof.
  intros H. pose proof (round_shift_mono n1 n2 H) as Hk.
  destruct (round_mantissa_range n1) as [Hr1 Hs1]; [lia|].
  destruct (round_mantissa_range n2) as [Hr2 Hs2]; [lia|].
  pose proof (round_shift_nonneg n1) as Hk1.
  unfold round_exp, round_man.
  destruct (Z.eq_dec (round_shift n1) (round_shift n2)) as [Heq|Hne].
  - pose proof (round_mantissa_mono n1 n2 H Heq) as Hm. rewrite Heq.
    destruct (Z.eqb_spec (round_mantissa n1) (2 ^ 53));
      destruct (Z.eqb_spec (round_mantissa n2) (2 ^ 53)); lia.
  - assert (Hlt : round_shift n1 < round_shift n2) by lia.
    specialize (Hs2 ltac:(lia)).
    destruct (Z.eqb_spec (round_mantissa n1) (2 ^ 53));
      destruct (Z.eqb_spec (round_mantissa n2) (2 ^ 53)); lia.
Qed.

Lemma round_pos_mono (n1 n2 : Z) :
  0 < n1 <= n2 ->
  SFleb (round_pos false n1) (round_pos false n2) = true
  /\ SFleb (round_pos true n2) (round_pos true n1) = true.
Proof.
  intros H. rewrite !round_pos_shape.
  pose proof (round_man_range n1 ltac:(lia)) as Hm1.
  pose proof (round_man_range n2 ltac:(lia)) as Hm2.
  assert (Hcmp : forall a b, 1 <= a -> 1 <= b -> a <= b ->
                 Pos.compare_cont Eq (Z.to_pos a) (Z.to_pos b) <> Gt).
  { intros a b Ha Hb Hab. rewrite Pos.compare_cont_spec. cbn [Pos.switch_Eq].
    destruct (Pos.compare_spec (Z.to_pos a) (Z.to_pos b)); try discriminate. lia. }
  destruct (round_lex_mono n1 n2 H) as [Hlt|[Heq Hm]].
  - destruct (Z.leb_spec (round_exp n1) 971); destruct (Z.leb_spec (round_exp n2) 971);
      try lia; unfold SFleb, SFcompare; try (split; reflexivity).
    assert (C1 : (round_exp n1 ?= round_exp n2) = Lt) by (apply Z.compare_lt_iff; lia).
    assert (C2 : (round_exp n2 ?= round_exp n1) = Gt) by (apply Z.compare_gt_iff; lia).
    rewrite C1, C2. split; reflexivity.
  - rewrite Heq.
    destruct (round_exp n2 <=? 971); [|split; reflexivity].
    unfold SFleb, SFcompare. rewrite Z.compare_refl.
    pose proof (Hcmp (round_man n1) (round_man n2) ltac:(lia) ltac:(lia) Hm) as Hc.
    split.
    + destruct (Pos.compare_cont Eq (Z.to_pos (round_man n1)) (Z.to_pos (round_man n2)));
        congruence.
    + rewrite Pos.compare_cont_spec in Hc |- *.
      rewrite (Pos.compare_antisym (Z.to_pos (round_man n1))).
      destruct (Pos.compare (Z.to_pos (round_man n1)) (Z.to_pos (round_man n2)));
        cbn in Hc |- *; congruence.
Qed.

Lemma round_pos_sign (s : bool) (n : Z) :
  (exists m e, round_pos s n = S754_finite s m e) \/ round_pos s n = S754_infinity s.
Proof.
  rewrite round_pos_shape. destruct (round_exp n <=? 971); [left; eauto|right; reflexivity].
Qed.

(** The nearest float is monotone in the number of units. *)
Lemma round_units_mono (z1 z2 : Z) :
  z1 <= z2 -> SFleb (round_units z1) (round_units z2) = true.
Proof.
  intros H.
  destruct z1 as [|p1|p1]; destruct z2 as [|p2|p2]; try lia; cbn [round_units];
    try match goal with
    | |- context [round_pos ?s1 ?a] =>
        match goal with
        | |- context [SFleb (round_pos false (Z.pos p1)) (round_pos false (Z.pos p2))] =>
            apply (round_pos_mono (Z.pos p1) (Z.pos p2)); lia
        | |- context [SFleb (round_pos true (Z.pos p1)) (round_pos true (Z.pos p2))] =>
            apply (round_pos_mono (Z.pos p2) (Z.pos p1)); lia
        end
    end;
    repeat match goal with
    | |- context [round_pos ?s ?a] =>
        let Hs := fresh in
        destruct (round_pos_sign s a) as [(?m & ?e & Hs)|Hs]; rewrite Hs
    end; reflexivity.
Qed.

(** *** The order of floats and the order of their units *)

Lemma units_lt_by_exponent (s1 s2 : bool) (m1 m2 : positive) (e1 e2 : Z) :
  valid_binary (S754_finite s1 m1 e1) = true ->
  valid_binary (S754_finite s2 m2 e2) = true ->
  e1 < e2 ->
  Z.pos m1 * 2 ^ (e1 + 1074) < Z.pos m2 * 2 ^ (e2 + 1074).
Proof.
  intros H1 H2 Hlt.
  destruct (valid_finite _ _ _ H1) as (_ & He1 & Hd1 & _).
  destruct (valid_finite _ _ _ H2) as (_ & He2 & _ & Hd2).
  specialize (Hd2 ltac:(lia)).
  destruct (digits2_pos_bounds m1) as [_ Hhi1].
  destruct (digits2_pos_bounds m2) as [Hlo2 _].
  rewrite Hd2 in Hlo2. change (53 - 1) with 52 in Hlo2.
  assert (Hm1 : Z.pos m1 < 2 ^ 53).
  { assert (2 ^ Z.pos (digits2_pos m1) <= 2 ^ 53) by (apply Z.pow_le_mono_r; lia). lia. }
  assert (Hc : 0 < 2 ^ (e1 + 1074)) by (apply Z.pow_pos_nonneg; lia).
  assert (Hp : 2 ^ (e2 + 1074) = 2 ^ (e1 + 1074) * 2 ^ (e2 - e1)).
  { rewrite <- Z.pow_add_r by lia. f_equal. lia. }
  assert (Hd : 2 <= 2 ^ (e2 - e1)).
  { change 2 with (2 ^ 1) at 1. apply Z.pow_le_mono_r; lia. }
  rewrite Hp. change (2 ^ 53) with (2 ^ 52 * 2) in Hm1. nia.
Qed.

Lemma SFleb_units (a b : spec_float) :
  valid_binary a = true -> valid_binary b = true ->
  sf_finite a = true -> sf_finite b = true ->
  SFleb a b = true -> units a <= units b.
Proof.
  intros Ha Hb Hfa Hfb.
  destruct a as [sa|sa| |sa ma ea]; try discriminate;
    destruct b as [sb|sb| |sb mb eb]; try discriminate; unfold SFleb; cbn [SFcompare units].
  - destruct (valid_finite _ _ _ Hb) as (_ & He & _).
    assert (0 < 2 ^ (eb + 1074)) by (apply Z.pow_pos_nonneg; lia).
    destruct sb; [discriminate|]. cbn [cond_Zopp]. lia.
  - destruct (valid_finite _ _ _ Ha) as (_ & He & _).
    assert (0 < 2 ^ (ea + 1074)) by (apply Z.pow_pos_nonneg; lia).
    destruct sa; [|discriminate]. cbn [cond_Zopp]. lia.
  - destruct (valid_finite _ _ _ Ha) as (_ & Hea & _).
    destruct (valid_finite _ _ _ Hb) as (_ & Heb & _).
    assert (0 < 2 ^ (ea + 1074)) by (apply Z.pow_pos_nonneg; lia).
    assert (0 < 2 ^ (eb + 1074)) by (apply Z.pow_pos_nonneg; lia).
    rewrite Pos.compare_cont_spec. cbn [Pos.switch_Eq].
    destruct sa, sb; cbn [cond_Zopp]; try discriminate; try lia.
    + destruct (Z.compare_spec ea eb) as [Heq|Hlt|Hgt]; try discriminate.
      * subst eb. destruct (Pos.compare_spec ma mb); cbn [CompOpp]; try discriminate;
          intros _; nia.
      * intros _. pose proof (units_lt_by_exponent _ _ _ _ _ _ Hb Ha Hgt). lia.
    + destruct (Z.compare_spec ea eb) as [Heq|Hlt|Hgt]; try discriminate.
      * subst eb. destruct (Pos.compare_spec ma mb); try discriminate; intros _; nia.
      * intros _. pose proof (units_lt_by_exponent _ _ _ _ _ _ Ha Hb Hlt). lia.
Qed.

Lemma SFleb_zero_norm (x y : spec_float) :
  SFleb (zero_norm x) (zero_norm y) = SFleb x y.
Proof.
  destruct x as [sx|sx| |sx mx ex]; destruct y as [sy|sy| |sy my ey]; reflexivity.
Qed.

Lemma zero_norm_round_units (z : Z) : zero_norm (round_units z) = round_units z.
Proof.
  destruct z as [|p|p]; cbn [round_units]; [reflexivity| |];
    match goal with
    | |- context [round_pos ?s ?a] =>
        destruct (round_pos_sign s a) as [(m & e & ->)| ->]; reflexivity
    end.
Qed.

(** The sum of two floats that are zero or finite is, up to the sign of a
    zero, the rounding of the sum of their units. *)
Lemma SFadd_round_units (x y : spec_float) :
  valid_binary x = true -> valid_binary y = true ->
  sf_finite x = true -> sf_finite y = true ->
  zero_norm (SFadd prec emax x y) = round_units (units x + units y).
Proof.
  intros Hx Hy Hfx Hfy.
  destruct x as [sx|sx| |sx mx ex]; try discriminate;
    destruct y as [sy|sy| |sy my ey]; try discriminate.
  - destruct sx, sy; reflexivity.
  - cbn [SFadd units]. rewrite Z.add_0_l.
    destruct (round_units_valid (S754_finite sy my ey) Hy eq_refl) as [H|[s H]];
      [|discriminate].
    cbn [units] in H. rewrite H. reflexivity.
  - cbn [SFadd units]. rewrite Z.add_0_r.
    destruct (round_units_valid (S754_finite sx mx ex) Hx eq_refl) as [H|[s H]];
      [|discriminate].
    cbn [units] in H. rewrite H. reflexivity.
  - destruct (valid_finite _ _ _ Hx) as (_ & Hex & _).
    destruct (valid_finite _ _ _ Hy) as (_ & Hey & _).
    rewrite SFadd_units by lia. apply zero_norm_round_units.
Qed.

(** Adding the same float to both sides keeps the order. *)
Lemma SFadd_mono (a b d : spec_float) :
  valid_binary a = true -> valid_binary b = true -> valid_binary d = true ->
  sf_finite a = true -> sf_finite b = true -> d <> S754_nan ->
  SFleb a b = true ->
  SFleb (SFadd prec emax a d) (SFadd prec emax b d) = true.
Proof.
  intros Ha Hb Hd Hfa Hfb Hnan Hle.
  destruct (sf_finite d) eqn:Hfd.
  - rewrite <- SFleb_zero_norm, !SFadd_round_units by assumption.
    apply round_units_mono. pose proof (SFleb_units a b Ha Hb Hfa Hfb Hle). lia.
  - destruct d as [sd|sd| |sd md ed]; try discriminate; [|congruence].
    destruct a as [sa|sa| |sa ma ea]; try discriminate;
      destruct b as [sb|sb| |sb mb eb]; try discriminate;
      destruct sd; reflexivity.
Qed.

(** On binary64 floats: [a <= b] gives [a + d <= b + d] for finite [a],
    [b] and any [d] that is a number. *)
Lemma float_add_mono (a b d : float) :
  is_finite a = true -> is_finite b = true -> is_nan d = false ->
  (a <=? b)%float = true -> (a + d <=? b + d)%float = true.
Proof.
  intros Hfa Hfb Hd Hle.
  assert (Hfin : forall x, is_finite x = true -> sf_finite (Prim2SF x) = true).
  { intros x. unfold is_finite. rewrite is_nan_Prim2SF, is_infinity_Prim2SF.
    destruct (Prim2SF x); cbn; congruence. }
  rewrite leb_spec in Hle |- *. rewrite !add_spec.
  apply SFadd_mono; try apply Prim2SF_valid; auto.
  rewrite is_nan_Prim2SF in Hd. destruct (Prim2SF d); congruence.
Qed.

(** *** Rounded numbers are floats *)

Lemma round_exp_range (n : Z) :
  0 < n -> -1074 <= round_exp n /\ (-1074 < round_exp n -> 2 ^ 52 <= round_man n).
Proof.
  intros Hn. destruct (round_mantissa_range n Hn) as [Hr Hs].
  pose proof (round_shift_nonneg n) as Hk. unfold round_exp, round_man.
  destruct (Z.eqb_spec (round_mantissa n) (2 ^ 53)); lia.
Qed.

Lemma round_pos_wf (s : bool) (n : Z) : 0 < n -> valid_binary (round_pos s n) = true.
Proof.
  intros Hn. rewrite round_pos_shape.
  destruct (Z.leb_spec (round_exp n) 971) as [He|He]; [|reflexivity].
  pose proof (round_man_range n Hn) as Hm.
  destruct (round_exp_range n Hn) as [Hlo Hnorm].
  unfold SpecFloat.valid_binary, bounded, canonical_mantissa.
  apply andb_true_intro.
  split; [|apply Z.leb_le; change (emax - prec) with 971; exact He].
  apply Z.eqb_eq. rewrite fexp_spec.
  set (m := Z.to_pos (round_man n)).
  assert (Hmz : Z.pos m = round_man n) by (unfold m; rewrite Z2Pos.id; lia).
  destruct (digits2_pos_bounds m) as [Hdlo Hdhi]. rewrite Hmz in Hdlo, Hdhi.
  assert (Hd : Z.pos (digits2_pos m) <= 53).
  { destruct (Z_le_gt_dec (Z.pos (digits2_pos m)) 53) as [H|H]; [exact H|exfalso].
    assert (2 ^ 53 <= 2 ^ (Z.pos (digits2_pos m) - 1)) by (apply Z.pow_le_mono_r; lia).
    lia. }
  destruct (Z.eq_dec (round_exp n) (-1074)) as [E|E]; [lia|].
  specialize (Hnorm ltac:(lia)).
  assert (Z.pos (digits2_pos m) = 53); [|lia].
  destruct (Z_le_gt_dec 53 (Z.pos (digits2_pos m))) as [H|H]; [lia|exfalso].
  assert (2 ^ Z.pos (digits2_pos m) <= 2 ^ 52) by (apply Z.pow_le_mono_r; lia).
  lia.
Qed.

Lemma round_units_wf (z : Z) : valid_binary (round_units z) = true.
Proof. destruct z as [|p|p]; [reflexivity| |]; apply round_pos_wf; lia. Qed.

Lemma round_units_number (z : Z) : round_units z <> S754_nan.
Proof.
  destruct z as [|p|p]; cbn [round_units]; [discriminate| |];
    match goal with
    | |- round_pos ?s ?a <> _ =>
        destruct (round_pos_sign s a) as [(m & e & ->)| ->]; discriminate
    end.
Qed.

(** [float(n)] is a finite float when it is one at all. *)
Lemma float_of_int_finite (n : Z) (x : float) :
  PyNum.float_of_int n = Ok x -> is_finite x = true.
Proof.
  unfold PyNum.float_of_int. rewrite binary_normalize_units by lia.
  set (v := round_units (n * 2 ^ (0 + 1074))).
  destruct (is_infinity (SF2Prim v)) eqn:Einf; [discriminate|].
  intros [= <-]. unfold is_finite. rewrite Einf, orb_false_r.
  rewrite is_nan_Prim2SF, Prim2SF_SF2Prim by apply round_units_wf.
  pose proof (round_units_number (n * 2 ^ (0 + 1074))) as Hn. fold v in Hn.
  clearbody v. destruct v; try reflexivity. congruence.
Qed.

(** *** A quotient by a finite float is a number *)

Lemma shr_record_of_loc_m (m : Z) (l : location) : shr_m (shr_record_of_loc m l) = m.
Proof. destruct l as [|[]]; reflexivity. Qed.

Lemma shr_1_nonneg (mrs : shr_record) : 0 <= shr_m mrs -> 0 <= shr_m (shr_1 mrs).
Proof.
  destruct mrs as [m r s]. cbn [shr_m]. intros Hm. rewrite shr_1_spec by exact Hm.
  cbn [shr_m]. apply Z.div_pos; lia.
Qed.

Lemma shr_nonneg (mrs : shr_record) (e n : Z) :
  0 <= shr_m mrs -> 0 <= shr_m (fst (shr mrs e n)).
Proof.
  intros Hm. destruct n as [|p|p]; cbn [shr fst]; try exact Hm.
  rewrite iter_pos_nat. induction (Pos.to_nat p) as [|j IH]; [exact Hm|].
  cbn [Nat.iter]. apply shr_1_nonneg. exact IH.
Qed.

Lemma round_nearest_even_nonneg (m : Z) (l : location) :
  0 <= m -> 0 <= round_nearest_even m l.
Proof.
  intros Hm. destruct l as [|[]]; cbn [round_nearest_even]; try lia.
  destruct (Z.even m); lia.
Qed.

Lemma binary_round_aux_number (s : bool) (m e : Z) (l : location) :
  0 <= m -> binary_round_aux prec emax s m e l <> S754_nan.
Proof.
  intros Hm. unfold binary_round_aux, shr_fexp.
  pose proof (shr_nonneg (shr_record_of_loc m l) e
                (fexp prec emax (Zdigits2 m + e) - e)) as H1.
  rewrite shr_record_of_loc_m in H1. specialize (H1 Hm).
  destruct (shr (shr_record_of_loc m l) e _) as [mrs1 e1]. cbn [fst] in H1.
  set (m2 := round_nearest_even (shr_m mrs1) (loc_of_shr_record mrs1)).
  assert (H2 : 0 <= m2) by (apply round_nearest_even_nonneg; exact H1).
  pose proof (shr_nonneg (shr_record_of_loc m2 loc_Exact) e1
                (fexp prec emax (Zdigits2 m2 + e1) - e1)) as H3.
  rewrite shr_record_of_loc_m in H3. specialize (H3 H2).
  destruct (shr (shr_record_of_loc m2 loc_Exact) e1 _) as [mrs2 e2]. cbn [fst] in H3.
  destruct (shr_m mrs2) as [|q|q]; [discriminate| |lia].
  destruct (e2 <=? emax - prec); discriminate.
Qed.

Lemma SFdiv_number (x : spec_float) (sy : bool) (my : positive) (ey : Z) :
  x <> S754_nan -> SFdiv prec emax x (S754_finite sy my ey) <> S754_nan.
Proof.
  intros Hx. destruct x as [sx|sx| |sx mx ex]; cbn [SFdiv]; try discriminate; [congruence|].
  unfold SFdiv_core_binary.
  set (sh := ex - ey - _).
  set (m' := match sh with Z0 => Z.pos mx | Z.pos _ => Z.shiftl (Z.pos mx) sh | Z.neg _ => 0 end).
  assert (Hm' : 0 <= m').
  { unfold m'. destruct sh; [lia| |lia]. apply Z.shiftl_nonneg. lia. }
  pose proof (Z.div_pos m' (Z.pos my) Hm' ltac:(lia)) as Hq.
  unfold Z.div in Hq. destruct (Z.div_eucl m' (Z.pos my)) as [q r].
  apply binary_round_aux_number. exact Hq.
Qed.

(** [n / 1000.0] is a number whenever it is evaluated. *)
Lemma int_truediv_number (n : Z) (d : float) :
  int_truediv n 1000 = Ok d -> is_nan d = false.
Proof.
  unfold int_truediv. destruct (PyNum.float_of_int n) as [x|e] eqn:Hx; [|discriminate].
  cbn [rbind]. destruct (1000 =? 0)%float; [discriminate|]. intros [= <-].
  apply float_of_int_finite in Hx. unfold is_finite in Hx.
  apply negb_true_iff, orb_false_elim in Hx as [Hnan _].
  rewrite is_nan_Prim2SF in Hnan |- *. rewrite div_spec.
  assert (H1000 : Prim2SF 1000 = S754_finite false 8796093022208000 (-43))
    by (vm_compute; reflexivity).
  rewrite H1000.
  assert (Hd : SFdiv prec emax (Prim2SF x) (S754_finite false 8796093022208000 (-43))
               <> S754_nan).
  { apply SFdiv_number. destruct (Prim2SF x); congruence. }
  unfold SF64div. destruct (SFdiv prec emax _ _); try reflexivity. congruence.
Qed.

Lemma SFleb_refl (x : spec_float) : x <> S754_nan -> SFleb x x = true.
Proof.
  unfold SFleb. destruct x as [s|s| |s m e]; simpl; try destruct s; try reflexivity;
    try congruence; intros _; rewrite Z.compare_refl, Pos.compare_cont_refl; reflexivity.
Qed.

Lemma leb_refl (x : float) : is_nan x = false -> (x <=? x)%float = true.
Proof.
  rewrite is_nan_Prim2SF, leb_spec. intros H. apply SFleb_refl.
  destruct (Prim2SF x); congruence.
Qed.

(** ** Type coercion *)







Lemma mem_tag_disjoint (l1 l2 : list string) (t : string) :
  forallb (fun x => negb (PyStr.mem x l2)) l1 = true ->
  PyStr.mem t l1 = true -> PyStr.mem t l2 = false.
Proof.
  unfold PyStr.mem at 2. intros Hall Hin.
  apply existsb_exists in Hin as [x [Hx Heq]].
  apply String.eqb_eq in Heq. subst x.
  rewrite forallb_forall in Hall. specialize (Hall t).
  apply negb_true_iff. apply Hall. apply list_elem_of_In. apply list_elem_of_In in Hx. exact Hx.
Qed.

Lemma int_tag_not_bool (t : string) :
  PyStr.mem t int_tags = true -> PyStr.mem t bool_tags = false.
Proof. apply mem_tag_disjoint. reflexivity. Qed.

Lemma float_tag_not_bool (t : string) :
  PyStr.mem t float_tags = true -> PyStr.mem t bool_tags = false.
Proof. apply mem_tag_disjoint. reflexivity. Qed.

Lemma float_tag_not_int (t : string) :
  PyStr.mem t float_tags = true -> PyStr.mem t int_tags = false.
Proof. apply mem_tag_disjoint. reflexivity. Qed.

(** [_cast] by tag family. *)
Lemma cast_bool_tag (dtype : string) (v : pyval) :
  PyStr.mem (cast_tag dtype) bool_tags = true ->
  _cast dtype v = (let* b := _to_bool v in Ok (VBool b)).
Proof. intros H. unfold _cast. rewrite H. reflexivity. Qed.

Lemma cast_int_tag (dtype : string) (v : pyval) :
  PyStr.mem (cast_tag dtype) int_tags = true ->
  _cast dtype v = (let* f := py_float v in let* n := PyNum.int_of_float f in Ok (VInt n)).
Proof. intros H. unfold _cast. rewrite (int_tag_not_bool _ H), H. reflexivity. Qed.

Lemma cast_float_tag (dtype : string) (v : pyval) :
  PyStr.mem (cast_tag dtype) float_tags = true ->
  _cast dtype v = (let* f := py_float v in Ok (VFloat f)).
Proof.
  intros H. unfold _cast.
  rewrite (float_tag_not_bool _ H), (float_tag_not_int _ H), H. reflexivity.
Qed.

Lemma cast_other_tag (dtype : string) (v : pyval) :
  PyStr.mem (cast_tag dtype) bool_tags = false ->
  PyStr.mem (cast_tag dtype) int_tags = false ->
  PyStr.mem (cast_tag dtype) float_tags = false ->
  _cast dtype v = (let* s := str_of_value v in Ok (VStr s)).
Proof. intros Hb Hi Hf. unfold _cast. rewrite Hb, Hi, Hf. reflexivity. Qed.


Lemma cast_int_of_small_int (dtype : string) (n : Z) :
  PyStr.mem (cast_tag dtype) int_tags = true -> Z.abs n <= 2 ^ 53 ->
  _cast dtype (VInt n) = Ok (VInt n).
Proof.
  intros H Hn. rewrite (cast_int_tag _ _ H).
  destruct (int_float_roundtrip n Hn) as (f & Hf & Hi).
  cbn [py_float]. rewrite Hf. cbn [rbind]. rewrite Hi. reflexivity.
Qed.

(** Coercion leaves a value of the declared type as it is. *)
Lemma cast_identity (dtype : string) :
  (PyStr.mem (cast_tag dtype) bool_tags = true ->
   forall b : bool, _cast dtype (VBool b) = Ok (VBool b))
  /\ (PyStr.mem (cast_tag dtype) int_tags = true ->
      forall n, Z.abs n <= 2 ^ 53 -> _cast dtype (VInt n) = Ok (VInt n))
  /\ (PyStr.mem (cast_tag dtype) float_tags = true ->
      forall f, _cast dtype (VFloat f) = Ok (VFloat f))
  /\ (PyStr.mem (cast_tag dtype) bool_tags = false ->
      PyStr.mem (cast_tag dtype) int_tags = false ->
      PyStr.mem (cast_tag dtype) float_tags = false ->
      forall s, _cast dtype (VStr s) = Ok (VStr s)).
Proof.
  split; [|split; [|split]].
  - intros H b. rewrite (cast_bool_tag _ _ H). reflexivity.
  - intros H n Hn. apply cast_int_of_small_int; assumption.
  - intros H f. rewrite (cast_float_tag _ _ H). reflexivity.
  - intros Hb Hi Hf s. rewrite (cast_other_tag _ _ Hb Hi Hf). reflexivity.
Qed.




(** ** Variable descriptors *)

Lemma dict_get_missing (d : list (string * pyval)) (k : string) (default : pyval) :
  lookup_key k d = None -> dict_get d k default = default.
Proof. unfold dict_get. intros ->. reflexivity. Qed.

Lemma node_value_set_nodes (srv : Server) (ns : gmap string UaNode) (h : string) :
  node_value (set_nodes srv ns) h = match ns !! h with Some n => ua_value n | None => None end.
Proof. reflexivity. Qed.

Lemma add_variable_value (srv srv' : Server) (parent id name h : string) (v : pyval) :
  add_variable srv parent id name v = (srv', Ok h) ->
  h = id /\ node_value srv' id = Some v.
Proof.
  unfold add_variable. destruct (nodes srv !! id); [discriminate|].
  intros [= <- <-]. split; [reflexivity|].
  rewrite node_value_set_nodes, lookup_insert_eq. reflexivity.
Qed.

Lemma set_writable_value (srv srv' : Server) (h h' : string) (u : unit) :
  set_writable srv h = (srv', Ok u) -> node_value srv' h' = node_value srv h'.
Proof.
  unfold set_writable. destruct (nodes srv !! h) as [n|] eqn:E; [|discriminate].
  intros [= <- _]. rewrite node_value_set_nodes. unfold node_value.
  destruct (decide (h = h')) as [->|Hne].
  - rewrite lookup_insert_eq, E. reflexivity.
  - rewrite lookup_insert_ne by exact Hne. reflexivity.
Qed.

(** The node [setup_item] creates holds the coerced initial value. *)
Lemma setup_item_initial (pf : Platform) (ns_idx : Z) (root_name : pyval) (st st' : Setup)
    (item : list (string * pyval)) :
  setup_item pf ns_idx root_name st item = (st', None) ->
  exists initial,
    item_initial item = Ok initial
    /\ node_value (server (su_sim st')) (item_node_id ns_idx root_name item) = Some initial.
Proof.
  unfold setup_item.
  destruct (item_texts root_name item) as [texts|e]; [|discriminate].
  destruct (item_initial item) as [initial|e]; [|discriminate].
  destruct (_split_path _) as [parent_path leaf].
  destruct (_ensure_object_path _ _ _ _ _) as [[srv1 cache1] [parent|e]]; [|discriminate].
  destruct (item_node_id_text item) as [text|e]; [|discriminate].
  destruct (add_variable _ _ _ _ _) as [srv2 [var_node|e]] eqn:Eadd; [|discriminate].
  apply add_variable_value in Eadd as [-> Hval].
  assert (Hw : forall srv3 rw,
             (if item_writable item
              then set_writable srv2 (item_node_id ns_idx root_name item)
              else (srv2, Ok tt)) = (srv3, Ok rw) ->
             node_value srv3 (item_node_id ns_idx root_name item) = Some initial).
  { intros srv3 rw. destruct (item_writable item).
    - intros H. rewrite (set_writable_value _ _ _ _ _ H). exact Hval.
    - intros [= <- _]. exact Hval. }
  destruct (if item_writable item then _ else _) as [srv3 [rw|e]] eqn:Ew; [|discriminate].
  specialize (Hw _ _ eq_refl).
  intros H. exists initial. split; [reflexivity|].
  destruct (dict_get item "simulation" VNone) as [| | | | | |sim_cfg];
    try (injection H as <-; exact Hw).
  destruct (py_bool _); [|injection H as <-; exact Hw].
  destruct (py_int _) as [interval_ms|e]; [|discriminate].
  destruct (int_truediv _ _) as [d|e]; [|discriminate].
  injection H as <-. exact Hw.
Qed.

(** C10: a descriptor without [initial] is created with
    [_cast(dtype, False)] when [dtype] is ["bool"] and with
    [_cast(dtype, 0)] otherwise: [False] for a bool, [0] for an int tag,
    [0.0] for a float tag and the string ["0"] for any other tag; the
    node [setup] creates for it holds that value. *)
Theorem initial_defaults_when_omitted (item : list (string * pyval)) :
  lookup_key "initial" item = None ->
  let dtype := item_dtype item in
  item_initial item
    = _cast dtype (if String.eqb dtype "bool" then VBool false else VInt 0)
  /\ (String.eqb dtype "bool" = true -> item_initial item = Ok (VBool false))
  /\ (PyStr.mem (cast_tag dtype) bool_tags = true -> item_initial item = Ok (VBool false))
  /\ (PyStr.mem (cast_tag dtype) int_tags = true -> item_initial item = Ok (VInt 0))
  /\ (PyStr.mem (cast_tag dtype) float_tags = true -> item_initial item = Ok (VFloat 0))
  /\ (PyStr.mem (cast_tag dtype) bool_tags = false ->
      PyStr.mem (cast_tag dtype) int_tags = false ->
      PyStr.mem (cast_tag dtype) float_tags = false ->
      item_initial item = Ok (VStr "0"))
  /\ (forall pf ns_idx root_name st st',
        setup_item pf ns_idx root_name st item = (st', None) ->
        exists initial,
          _cast dtype (if String.eqb dtype "bool" then VBool false else VInt 0) = Ok initial
          /\ node_value (server (su_sim st')) (item_node_id ns_idx root_name item)
             = Some initial).
Proof.
  intros Hmiss dtype.
  assert (Hinit : item_initial item
                  = _cast dtype (if String.eqb dtype "bool" then VBool false else VInt 0)).
  { unfold item_initial. fold dtype. rewrite (dict_get_missing _ _ _ Hmiss). reflexivity. }
  split; [exact Hinit|]. rewrite Hinit.
  split; [|split; [|split; [|split; [|split]]]].
  - intros E. rewrite E. apply String.eqb_eq in E. rewrite E. reflexivity.
  - intros Hb. unfold _cast. rewrite Hb. destruct (String.eqb dtype "bool"); reflexivity.
  - intros Hi. unfold _cast. rewrite (int_tag_not_bool _ Hi), Hi.
    destruct (String.eqb dtype "bool") eqn:E.
    + apply String.eqb_eq in E. rewrite E in Hi. discriminate.
    + reflexivity.
  - intros Hf. unfold _cast.
    rewrite (float_tag_not_bool _ Hf), (float_tag_not_int _ Hf), Hf.
    destruct (String.eqb dtype "bool") eqn:E.
    + apply String.eqb_eq in E. rewrite E in Hf. discriminate.
    + reflexivity.
  - intros Hb Hi Hf. unfold _cast. rewrite Hb, Hi, Hf.
    destruct (String.eqb dtype "bool") eqn:E.
    + apply String.eqb_eq in E. rewrite E in Hb. discriminate.
    + reflexivity.
  - intros pf ns_idx root_name st st' H.
    destruct (setup_item_initial _ _ _ _ _ _ H) as [initial [H1 H2]].
    exists initial. rewrite <- Hinit. split; assumption.
Qed.

Lemma initial_defaults_witness :
  item_initial [("name", VStr "Label"); ("type", VStr "string")] = Ok (VStr "0")
  /\ item_initial [("name", VStr "Count"); ("type", VStr "Int32")] = Ok (VInt 0)
  /\ item_initial [("name", VStr "Level")] = Ok (VFloat 0)
  /\ item_initial [("name", VStr "Flag"); ("type", VStr "bool")] = Ok (VBool false)
  /\ node_value (server (su_sim (fst label_setup))) "ns=2;s=Machine.Label"
     = Some (VStr "0").
Proof.
  split; [|split; [|split; [|split]]].
  - pose proof (initial_defaults_when_omitted
                  [("name", VStr "Label"); ("type", VStr "string")] eq_refl) as H.
    cbv zeta in H. apply H; reflexivity.
  - pose proof (initial_defaults_when_omitted
                  [("name", VStr "Count"); ("type", VStr "Int32")] eq_refl) as H.
    cbv zeta in H. apply H; reflexivity.
  - pose proof (initial_defaults_when_omitted [("name", VStr "Level")] eq_refl) as H.
    cbv zeta in H. apply H; reflexivity.
  - pose proof (initial_defaults_when_omitted
                  [("name", VStr "Flag"); ("type", VStr "bool")] eq_refl) as H.
    cbv zeta in H. apply H; reflexivity.
  - pose proof (initial_defaults_when_omitted label_item eq_refl) as H.
    cbv zeta in H. destruct H as (_ & _ & _ & _ & _ & _ & H).
    assert (Heq : setup_item example_platform 2 (VStr "Machine") label_state label_item
                  = (fst label_setup, None)) by (vm_compute; reflexivity).
    destruct (H example_platform 2 (VStr "Machine") label_state (fst label_setup) Heq)
      as [initial [Hc Hv]].
    assert (Hi : initial = VStr "0") by (vm_compute in Hc; congruence).
    assert (Hid : item_node_id 2 (VStr "Machine") label_item = "ns=2;s=Machine.Label")
      by (vm_compute; reflexivity).
    rewrite Hid, Hi in Hv. exact Hv.
Defined.

(** C1: the identifier [setup] derives for a variable is built from the
    path as written, not from the normalized path. The paths
    ["Machine/Running"] and ["Machine//Running"] normalize to the same
    string and name the same parent and leaf, yet the two descriptors
    receive different identifiers, whereas the container identifiers of
    [_ensure_object_path] agree on them. For the path
    ["Machine/StackLight/Green"] and the namespace index 2 the identifier
    is ["ns=2;s=Machine.StackLight.Green"]. *)
Theorem variable_node_id_not_normalized :
  let a := [("name", VStr "Running"); ("path", VStr "Machine/Running")] in
  let b := [("name", VStr "Running"); ("path", VStr "Machine//Running")] in
  let root := VStr "Machine" in
  lookup_key "node_id" a = None
  /\ lookup_key "node_id" b = None
  /\ normalize (item_path root a) = normalize (item_path root b)
  /\ _split_path (item_path root a) = _split_path (item_path root b)
  /\ object_node_id 2 (normalize (item_path root a))
     = object_node_id 2 (normalize (item_path root b))
  /\ item_node_id 2 root a = "ns=2;s=Machine.Running"
  /\ item_node_id 2 root b = "ns=2;s=Machine..Running"
  /\ item_node_id 2 root a <> item_node_id 2 root b
  /\ item_node_id 2 root
       [("name", VStr "StackLightGreen"); ("path", VStr "Machine/StackLight/Green")]
     = "ns=2;s=Machine.StackLight.Green".
Proof.
  cbv zeta. repeat split; try reflexivity.
  vm_compute. discriminate.
Qed.

(** On a path that is already normalized the derived identifier is the
    container scheme applied to it. *)
Lemma item_node_id_of_normal_path (ns_idx : Z) (root_name : pyval)
    (item : list (string * pyval)) :
  py_bool (dict_get item "node_id" VNone) = false ->
  normalize (item_path root_name item) = item_path root_name item ->
  item_node_id ns_idx root_name item
  = object_node_id ns_idx (normalize (item_path root_name item)).
Proof.
  intros Hid Hnorm. unfold item_node_id, object_node_id. rewrite Hid, Hnorm. reflexivity.
Qed.

(** ** The text of a mode *)

Lemma str_of_int_head (z : Z) :
  exists c r, PyNum.str_of_int z = String c r
              /\ In c (list_ascii_of_string "-0123456789").
Proof.
  unfold PyNum.str_of_int.
  destruct z as [|p|p]; cbn [Z.to_int NilZero.string_of_int].
  - exists "0"%char, "". split; [reflexivity|cbn; tauto].
  - destruct (Pos.to_uint p); cbn; eexists _, _; (split; [reflexivity|cbn; tauto]).
  - exists "-"%char. eexists. split; [reflexivity|cbn; tauto].
Qed.

(** The text of a value that has none would start with a sign, a digit
    or a bracket. *)
Lemma unprintable_head (v : pyval) :
  printable v = false ->
  exists c r, py_str v = String c r /\ In c (list_ascii_of_string "-0123456789[{").
Proof.
  destruct v as [| | z | | | l | d]; cbn [printable]; try discriminate; intros _.
  - destruct (str_of_int_head z) as (c & r & E & Hc). exists c, r.
    split; [exact E|]. cbn in Hc |- *. tauto.
  - eexists "["%char, _. split; [reflexivity|cbn; tauto].
  - eexists "{"%char, _. split; [reflexivity|cbn; tauto].
Qed.

Lemma strip_head (c : ascii) (r : string) :
  PyStr.is_space c = false -> exists r', PyStr.strip (String c r) = String c r'.
Proof.
  intros Hc. unfold PyStr.strip. cbn [PyStr.lstrip]. rewrite Hc. cbn [PyStr.rstrip].
  destruct (PyStr.rstrip r); [rewrite Hc|]; eexists; reflexivity.
Qed.

Lemma head_not_mode (c : ascii) (r : string) :
  In c (list_ascii_of_string "-0123456789[{") ->
  PyStr.mem (PyStr.strip (PyStr.lower (String c r))) known_modes = false.
Proof.
  intros Hc. cbn [PyStr.lower]. cbn [list_ascii_of_string In] in Hc.
  repeat (destruct Hc as [<-|Hc];
          [match goal with
           | |- context [PyStr.strip (String ?a ?t)] =>
               destruct (strip_head a t eq_refl) as [r' ->]
           end; reflexivity|]).
  contradiction.
Qed.

(** A mode that is one of the six known modes has a text. *)
Lemma known_mode_printable (b : SimBinding) :
  PyStr.mem (binding_mode b) known_modes = true ->
  printable (dict_get (simulation b) "mode" (VStr "")) = true.
Proof.
  unfold binding_mode. intros Hm.
  destruct (printable (dict_get (simulation b) "mode" (VStr ""))) eqn:Ep; [reflexivity|].
  destruct (unprintable_head _ Ep) as (c & r & E & Hc).
  rewrite E, (head_not_mode c r Hc) in Hm. discriminate.
Qed.

Lemma mode_printable (b : SimBinding) (m : string) :
  binding_mode b = m -> PyStr.mem m known_modes = true ->
  printable (dict_get (simulation b) "mode" (VStr "")) = true.
Proof. intros <-. apply known_mode_printable. Qed.

(** With a mode that has no text the generator raises at once. *)
Lemma generate_unprintable (pf : Platform) (interval_ms : Z) (b : SimBinding) (k : nat)
    (current : pyval) :
  printable (dict_get (simulation b) "mode" (VStr "")) = false ->
  generate pf interval_ms b k current
  = {| gen_binding := b; gen_draws := k; gen_value := Raise ValueError |}.
Proof. intros H. unfold generate. rewrite H. reflexivity. Qed.

(** ** Value generators *)

Lemma ramp_wrap_cases (cur minimum maximum : float) :
  ramp_wrap cur minimum maximum
  = if (maximum <? cur)%float then minimum
    else if (cur <? minimum)%float then maximum else cur.
Proof.
  unfold ramp_wrap. destruct (maximum <? cur)%float; [|reflexivity].
  rewrite ltb_irrefl. reflexivity.
Qed.

(** C7: in mode [ramp] the output is [current + step], except that it
    is [min] when [current + step > max] and otherwise [max] when
    [current + step < min]. With [min = 0], [max = 3000], [step = 150] the
    value after 2850 is 3000 and the value after 3000 is 0, as floats and,
    through the tick of the example configuration, as the ints written to
    the RPM variable. *)
Theorem ramp_output :
  (forall pf interval_ms b k current step minimum maximum c,
      binding_mode b = "ramp" ->
      sim_float b "step" 1 = Ok step ->
      sim_float b "min" 0 = Ok minimum ->
      sim_float b "max" 100 = Ok maximum ->
      py_float current = Ok c ->
      generate pf interval_ms b k current
      = {| gen_binding := b; gen_draws := k;
           gen_value :=
             Ok (VFloat (if (maximum <? c + step)%float then minimum
                         else if (c + step <? minimum)%float then maximum
                         else (c + step)%float)) |})
  /\ ramp_wrap (2850 + 150) 0 3000 = 3000%float
  /\ ramp_wrap (3000 + 150) 0 3000 = 0%float
  /\ trace example_platform "ns=2;s=Machine.RPM"
       [client_write "ns=2;s=Machine.RPM" (VInt 2850); id] example_simulator
     = [Some (VInt 3000); Some (VInt 0)].
Proof.
  split; [|split; [|split]].
  - intros pf interval_ms b k current step minimum maximum c Hmode Hs Hmin Hmax Hc.
    unfold generate. rewrite (mode_printable b _ Hmode eq_refl), Hmode.
    cbn [negb String.eqb Ascii.eqb Bool.eqb].
    rewrite Hs, Hmin, Hmax, Hc. cbn [rbind]. rewrite ramp_wrap_cases. reflexivity.
  - vm_compute. reflexivity.
  - vm_compute. reflexivity.
  - vm_compute. reflexivity.
Qed.

Lemma ramp_output_witness :
  gen_value (generate example_platform 800 rpm_binding 0%nat (VInt 2850)) = Ok (VFloat 3000)
  /\ gen_value (generate example_platform 800 rpm_binding 0%nat (VInt 3000)) = Ok (VFloat 0).
Proof.
  split.
  - rewrite (proj1 ramp_output example_platform 800 rpm_binding 0%nat (VInt 2850)
               150%float 0%float 3000%float 2850%float
               eq_refl eq_refl eq_refl eq_refl eq_refl).
    vm_compute. reflexivity.
  - rewrite (proj1 ramp_output example_platform 800 rpm_binding 0%nat (VInt 3000)
               150%float 0%float 3000%float 3000%float
               eq_refl eq_refl eq_refl eq_refl eq_refl).
    vm_compute. reflexivity.
Defined.

Lemma py_index_in_range (l : list pyval) (i : Z) :
  0 <= i < Z.of_nat (length l) ->
  exists x, nth_error l (Z.to_nat i) = Some x /\ py_index l i = Ok x.
Proof.
  intros Hi. unfold py_index.
  destruct (i <? 0) eqn:E1; [apply Z.ltb_lt in E1; lia|].
  rewrite E1. cbn [orb].
  destruct (Z.of_nat (length l) <=? i) eqn:E2; [apply Z.leb_le in E2; lia|].
  destruct (nth_error l (Z.to_nat i)) as [x|] eqn:E3.
  - exists x. split; reflexivity.
  - apply nth_error_None in E3. lia.
Qed.

(** C6: in mode [cycle] with a non-empty list of values a due tick sets
    [cycle_index] to [(cycle_index + 1) mod len(values)] and outputs
    [values[cycle_index]] at the new index. From index 0 and the values
    [Idle, Setup, Auto, Alarm] the outputs of four due ticks are Setup,
    Auto, Alarm and Idle. *)
Theorem cycle_output :
  (forall pf interval_ms b k current v vs,
      binding_mode b = "cycle" ->
      dict_get (simulation b) "values" (VList []) = VList (v :: vs) ->
      let i := (cycle_index b + 1) mod Z.of_nat (length (v :: vs)) in
      0 <= i < Z.of_nat (length (v :: vs))
      /\ exists x,
          nth_error (v :: vs) (Z.to_nat i) = Some x
          /\ generate pf interval_ms b k current
             = {| gen_binding := set_cycle_index b i; gen_draws := k; gen_value := Ok x |})
  /\ cycle_index mode_binding = 0
  /\ trace example_platform "ns=2;s=Machine.Mode" [id; id; id; id] example_simulator
     = [Some (VStr "Setup"); Some (VStr "Auto"); Some (VStr "Alarm"); Some (VStr "Idle")].
Proof.
  split; [|split].
  - intros pf interval_ms b k current v vs Hmode Hvalues i.
    assert (Hi : 0 <= i < Z.of_nat (length (v :: vs))).
    { apply Z.mod_pos_bound. cbn [length]. lia. }
    split; [exact Hi|].
    destruct (py_index_in_range (v :: vs) i Hi) as [x [Hn Hx]].
    exists x. split; [exact Hn|].
    unfold generate. rewrite (mode_printable b _ Hmode eq_refl), Hmode.
    cbn [negb String.eqb Ascii.eqb Bool.eqb].
    rewrite Hvalues. cbn [cycle_index set_cycle_index]. fold i. rewrite Hx. reflexivity.
  - reflexivity.
  - vm_compute. reflexivity.
Qed.

Lemma cycle_output_witness :
  generate example_platform 6000 mode_binding 0%nat (VStr "Idle")
  = {| gen_binding := set_cycle_index mode_binding 1; gen_draws := 0%nat;
       gen_value := Ok (VStr "Setup") |}
  /\ generate example_platform 6000 (set_cycle_index mode_binding 3) 0%nat (VStr "Alarm")
     = {| gen_binding := set_cycle_index (set_cycle_index mode_binding 3) 0;
          gen_draws := 0%nat; gen_value := Ok (VStr "Idle") |}.
Proof.
  split.
  - destruct (proj1 cycle_output example_platform 6000 mode_binding 0%nat (VStr "Idle")
                (VStr "Idle") [VStr "Setup"; VStr "Auto"; VStr "Alarm"] eq_refl eq_refl)
      as [_ [x [Hx Hg]]].
    vm_compute in Hx. injection Hx as <-. exact Hg.
  - destruct (proj1 cycle_output example_platform 6000 (set_cycle_index mode_binding 3)
                0%nat (VStr "Alarm")
                (VStr "Idle") [VStr "Setup"; VStr "Auto"; VStr "Alarm"] eq_refl eq_refl)
      as [_ [x [Hx Hg]]].
    vm_compute in Hx. injection Hx as <-. exact Hg.
Defined.

(** ** The address space under reads and writes *)

Lemma read_value_server (srv : Server) (h : string) :
  fst (read_value srv h) = log_call srv (EvRead h).
Proof.
  unfold read_value. destruct (decide _) as [Hin|Hout]; [reflexivity|].
  destruct (node_value srv h); reflexivity.
Qed.

Lemma read_fails_iff (srv : Server) (h : string) :
  read_fails srv h = true <-> h ∈ unreadable srv \/ node_value srv h = None.
Proof.
  unfold read_fails, read_value. destruct (decide (h ∈ unreadable srv)) as [Hin|Hout]; cbn.
  - tauto.
  - destruct (node_value srv h); cbn; split; try tauto; try discriminate.
    intros [?|?]; [contradiction|discriminate].
Qed.

Lemma write_value_unreadable (srv : Server) (h : string) (v : pyval) :
  unreadable (fst (write_value srv h v)) = unreadable srv.
Proof.
  unfold write_value. destruct (decide _) as [Hin|Hout]; [reflexivity|].
  destruct (nodes srv !! h) as [n|]; [|reflexivity].
  destruct (ua_value n); reflexivity.
Qed.

Lemma write_value_unwritable (srv : Server) (h : string) (v : pyval) :
  unwritable (fst (write_value srv h v)) = unwritable srv.
Proof.
  unfold write_value. destruct (decide _) as [Hin|Hout]; [reflexivity|].
  destruct (nodes srv !! h) as [n|]; [|reflexivity].
  destruct (ua_value n); reflexivity.
Qed.

Lemma write_value_calls (srv : Server) (h : string) (v : pyval) :
  calls (fst (write_value srv h v)) = (calls srv ++ [EvWrite h v])%list.
Proof.
  unfold write_value. destruct (decide _) as [Hin|Hout]; [reflexivity|].
  destruct (nodes srv !! h) as [n|]; [|reflexivity].
  destruct (ua_value n); reflexivity.
Qed.

(** A write that succeeds stores the value; one that fails stores nothing. *)
Lemma write_value_ok (srv : Server) (h : string) (v : pyval) :
  write_fails srv h v = false ->
  node_value (fst (write_value srv h v)) h = Some v
  /\ forall h', h' <> h -> node_value (fst (write_value srv h v)) h' = node_value srv h'.
Proof.
  unfold write_fails, write_value. destruct (decide _) as [Hin|Hout]; [discriminate|].
  destruct (nodes srv !! h) as [n|] eqn:E; [|discriminate].
  destruct (ua_value n) eqn:Ev; [|discriminate].
  intros _. cbn [fst]. split.
  - unfold node_value. cbn. rewrite lookup_insert_eq. reflexivity.
  - intros h' Hne. unfold node_value. cbn. rewrite lookup_insert_ne by congruence.
    reflexivity.
Qed.

Lemma write_value_failed (srv : Server) (h : string) (v : pyval) :
  write_fails srv h v = true -> nodes (fst (write_value srv h v)) = nodes srv.
Proof.
  unfold write_fails, write_value. destruct (decide _) as [Hin|Hout]; [reflexivity|].
  destruct (nodes srv !! h) as [n|] eqn:E; [|reflexivity].
  destruct (ua_value n) eqn:Ev; [discriminate|reflexivity].
Qed.

(** A write never turns a node without a value into one with a value. *)
Lemma write_value_keeps_none (srv : Server) (h h' : string) (v : pyval) :
  node_value srv h' = None -> node_value (fst (write_value srv h v)) h' = None.
Proof.
  intros Hnone. destruct (write_fails srv h v) eqn:E.
  - unfold node_value. rewrite (write_value_failed _ _ _ E). exact Hnone.
  - destruct (decide (h' = h)) as [->|Hne].
    + exfalso. revert E. unfold write_fails, write_value.
      destruct (decide _) as [Hin|Hout]; [discriminate|].
      unfold node_value in Hnone.
      destruct (nodes srv !! h) as [n|]; [|discriminate].
      rewrite Hnone. discriminate.
    + rewrite (proj2 (write_value_ok _ _ _ E) h' Hne). exact Hnone.
Qed.

Lemma write_value_read_fails (srv : Server) (h h' : string) (v : pyval) :
  read_fails srv h' = true -> read_fails (fst (write_value srv h v)) h' = true.
Proof.
  rewrite !read_fails_iff, write_value_unreadable.
  intros [Hin|Hnone]; [left; exact Hin|right].
  apply write_value_keeps_none. exact Hnone.
Qed.

Lemma log_call_read_fails (srv : Server) (ev : event) (h : string) :
  read_fails (log_call srv ev) h = read_fails srv h.
Proof.
  unfold read_fails, read_value, node_value. cbn [log_call unreadable nodes].
  destruct (decide _) as [Hin|Hout]; [reflexivity|].
  destruct (nodes srv !! h) as [n|]; [|reflexivity].
  destruct (ua_value n); reflexivity.
Qed.

(** ** The tick scheduler *)

Lemma read_value_split (srv : Server) (h : string) :
  read_value srv h = (log_call srv (EvRead h), snd (read_value srv h)).
Proof. rewrite <- read_value_server. destruct (read_value srv h); reflexivity. Qed.

(** The loop body never repairs a failing read. *)
Lemma tick_binding_read_fails (pf : Platform) (dt : Z) (now : float) (b : SimBinding)
    (srv : Server) (k : nat) (h : string) :
  read_fails srv h = true ->
  read_fails (vis_server (tick_binding pf dt now b srv k)) h = true.
Proof.
  intros Hf. unfold tick_binding.
  destruct (py_int _) as [interval_ms|e]; [|exact Hf].
  destruct (now <? next_due b)%float; [exact Hf|].
  rewrite read_value_split.
  assert (Hf1 : read_fails (log_call srv (EvRead (node b))) h = true)
    by (rewrite log_call_read_fails; exact Hf).
  destruct (snd (read_value srv (node b))) as [current|e]; [|exact Hf1].
  destruct (gen_value _) as [new_value|e]; [|exact Hf1].
  destruct (_cast _ _) as [casted|e]; [|exact Hf1].
  destruct (int_truediv _ _) as [d|e]; cbn [vis_server];
    apply write_value_read_fails; exact Hf1.
Qed.

(** A due binding whose read fails is left as it is by the loop body. *)
Lemma tick_binding_read_failure (pf : Platform) (dt : Z) (now : float) (b : SimBinding)
    (srv : Server) (k : nat) (interval_ms : Z) :
  py_int (dict_get (simulation b) "interval_ms" (VInt dt)) = Ok interval_ms ->
  (now <? next_due b)%float = false ->
  read_fails srv (node b) = true ->
  tick_binding pf dt now b srv k
  = {| vis_binding := b; vis_server := log_call srv (EvRead (node b));
       vis_draws := k; vis_exn := None |}.
Proof.
  intros Hint Hdue Hf. unfold tick_binding. rewrite Hint, Hdue, read_value_split.
  unfold read_fails in Hf. destruct (snd (read_value srv (node b))); [discriminate|].
  reflexivity.
Qed.

(** A due binding is read first, whatever comes after. *)
Lemma tick_binding_reads_when_due (pf : Platform) (dt : Z) (now : float) (b : SimBinding)
    (srv : Server) (k : nat) (interval_ms : Z) :
  py_int (dict_get (simulation b) "interval_ms" (VInt dt)) = Ok interval_ms ->
  (now <? next_due b)%float = false ->
  exists rest,
    calls (vis_server (tick_binding pf dt now b srv k))
    = (calls srv ++ EvRead (node b) :: rest)%list.
Proof.
  intros Hint Hdue. unfold tick_binding. rewrite Hint, Hdue, read_value_split.
  destruct (snd (read_value srv (node b))) as [current|e]; [|exists []; reflexivity].
  destruct (gen_value _) as [new_value|e]; [|exists []; reflexivity].
  destruct (_cast _ _) as [casted|e]; [|exists []; reflexivity].
  exists [EvWrite (node (gen_binding (generate pf interval_ms b k current))) casted].
  destruct (int_truediv _ _) as [d|e]; cbn [vis_server];
    rewrite write_value_calls; cbn [calls log_call]; rewrite <- app_assoc; reflexivity.
Qed.

Lemma still_due_later (now now' due : float) :
  (now <? due)%float = false -> (now <=? now')%float = true -> (now' <? due)%float = false.
Proof.
  intros Hdue Hle. destruct (now' <? due)%float eqn:E; [|reflexivity].
  rewrite (leb_ltb_trans _ _ _ Hle E) in Hdue. discriminate.
Qed.

(** The loop of a tick leaves a due binding whose read fails as it is. *)
Lemma tick_loop_read_failure (pf : Platform) (dt : Z) (now : float) (b : SimBinding)
    (interval_ms : Z) :
  py_int (dict_get (simulation b) "interval_ms" (VInt dt)) = Ok interval_ms ->
  (now <? next_due b)%float = false ->
  forall (bs : list SimBinding) (srv : Server) (k : nat) (i : nat),
    bs !! i = Some b ->
    read_fails srv (node b) = true ->
    (tick_loop pf dt now bs srv k).1.1.1 !! i = Some b.
Proof.
  intros Hint Hdue. induction bs as [|b0 rest IH]; intros srv k i Hi Hf.
  - discriminate.
  - cbn [tick_loop]. destruct i as [|i].
    + injection Hi as ->.
      rewrite (tick_binding_read_failure _ _ _ _ _ _ _ Hint Hdue Hf). cbn [vis_exn].
      destruct (tick_loop _ _ _ _ _ _) as [[[rest' srv'] k'] r]. reflexivity.
    + cbn in Hi.
      pose proof (tick_binding_read_fails pf dt now b0 srv k (node b) Hf) as Hf'.
      destruct (vis_exn (tick_binding pf dt now b0 srv k)); [exact Hi|].
      specialize (IH _ (vis_draws (tick_binding pf dt now b0 srv k)) i Hi Hf').
      destruct (tick_loop _ _ _ _ _ _) as [[[rest' srv'] k'] r]. exact IH.
Qed.

(** C4: a due binding whose read fails is skipped by the tick: the loop
    body raises nothing, issues the read and no write, leaves the nodes and
    the binding ([next_due], [cycle_index], [phase]) as they were, the whole
    tick leaves the binding as it was, and at any later time the binding is
    still due and is read again. *)
Theorem read_failure_skips_binding (pf : Platform) (dt : Z) (now : float)
    (b : SimBinding) (srv : Server) (k : nat) (interval_ms : Z) :
  py_int (dict_get (simulation b) "interval_ms" (VInt dt)) = Ok interval_ms ->
  (now <? next_due b)%float = false ->
  read_fails srv (node b) = true ->
  let v := tick_binding pf dt now b srv k in
  vis_binding v = b
  /\ vis_exn v = None
  /\ calls (vis_server v) = (calls srv ++ [EvRead (node b)])%list
  /\ nodes (vis_server v) = nodes srv
  /\ (forall sim i,
        default_tick_ms sim = dt -> monotonic pf (clock_reads sim) = now ->
        bindings sim !! i = Some b -> read_fails (server sim) (node b) = true ->
        bindings (_tick pf sim).1 !! i = Some b)
  /\ (forall now' srv' k',
        (now <=? now')%float = true ->
        (now' <? next_due (vis_binding v))%float = false
        /\ exists rest,
            calls (vis_server (tick_binding pf dt now' (vis_binding v) srv' k'))
            = (calls srv' ++ EvRead (node b) :: rest)%list).
Proof.
  intros Hint Hdue Hf v. subst v.
  rewrite (tick_binding_read_failure _ _ _ _ _ _ _ Hint Hdue Hf).
  cbn [vis_binding vis_exn vis_server].
  repeat split.
  - intros sim i Hdt Hnow Hi Hfs. unfold _tick. rewrite Hdt, Hnow.
    pose proof (tick_loop_read_failure pf dt now b interval_ms Hint Hdue
                  (bindings sim) (server sim) (draws sim) i Hi Hfs) as H.
    destruct (tick_loop _ _ _ _ _ _) as [[[bs' srv'] k'] r]. exact H.
  - eapply still_due_later; eassumption.
  - eapply tick_binding_reads_when_due; [exact Hint|].
    eapply still_due_later; eassumption.
Qed.

Lemma read_failure_skips_binding_witness :
  let v := tick_binding example_platform 500 150 rpm_binding rpm_unreadable 0 in
  vis_binding v = rpm_binding /\ vis_exn v = None.
Proof.
  assert (Hf : read_fails rpm_unreadable (node rpm_binding) = true)
    by (vm_compute; reflexivity).
  destruct (read_failure_skips_binding example_platform 500 150 rpm_binding
              rpm_unreadable 0 800 eq_refl eq_refl Hf) as (Hb & He & _).
  split; [exact Hb | exact He].
Defined.

(** The generators touch only [cycle_index] and [phase]. *)
Lemma generate_keeps (pf : Platform) (interval_ms : Z) (b : SimBinding) (k : nat)
    (current : pyval) :
  let b' := gen_binding (generate pf interval_ms b k current) in
  node b' = node b /\ node_id b' = node_id b /\ dtype b' = dtype b
  /\ simulation b' = simulation b /\ next_due b' = next_due b.
Proof.
  unfold generate.
  repeat match goal with
  | |- context [if ?c then _ else _] => destruct c
  | |- context [match ?x with _ => _ end] => destruct x
  end; cbn; repeat split; reflexivity.
Qed.

Lemma write_fails_log_call (srv : Server) (ev : event) (h : string) (v : pyval) :
  write_fails (log_call srv ev) h v = write_fails srv h v.
Proof.
  unfold write_fails, write_value. cbn [log_call unwritable nodes].
  destruct (decide _) as [Hin|Hout]; [reflexivity|].
  destruct (nodes srv !! h) as [n|]; [|reflexivity].
  destruct (ua_value n); reflexivity.
Qed.

(** The loop body on a binding that is not due. *)
Lemma tick_binding_not_due (pf : Platform) (dt : Z) (now : float) (b : SimBinding)
    (srv : Server) (k : nat) (interval_ms : Z) :
  py_int (dict_get (simulation b) "interval_ms" (VInt dt)) = Ok interval_ms ->
  (now <? next_due b)%float = true ->
  tick_binding pf dt now b srv k
  = {| vis_binding := b; vis_server := srv; vis_draws := k; vis_exn := None |}.
Proof. intros Hint Hdue. unfold tick_binding. rewrite Hint, Hdue. reflexivity. Qed.

(** The loop body on a due binding whose read, generator and coercion
    succeed: the write is issued and the schedule advances. *)
Lemma tick_binding_written (pf : Platform) (dt : Z) (now : float) (b : SimBinding)
    (srv : Server) (k : nat) (interval_ms : Z) (current new_value casted : pyval)
    (d : float) :
  py_int (dict_get (simulation b) "interval_ms" (VInt dt)) = Ok interval_ms ->
  (now <? next_due b)%float = false ->
  snd (read_value srv (node b)) = Ok current ->
  gen_value (generate pf interval_ms b k current) = Ok new_value ->
  _cast (dtype b) new_value = Ok casted ->
  int_truediv interval_ms 1000 = Ok d ->
  let g := generate pf interval_ms b k current in
  tick_binding pf dt now b srv k
  = {| vis_binding := set_next_due (gen_binding g) (now + d)%float;
       vis_server := fst (write_value (log_call srv (EvRead (node b))) (node b) casted);
       vis_draws := gen_draws g; vis_exn := None |}.
Proof.
  intros Hint Hdue Hread Hgen Hcast Hdiv g. subst g. unfold tick_binding.
  rewrite Hint, Hdue, read_value_split, Hread. cbv zeta. rewrite Hgen.
  destruct (generate_keeps pf interval_ms b k current) as (Hn & _ & Hd & _).
  rewrite Hd, Hcast, Hdiv, Hn. reflexivity.
Qed.

(** C5: when the write of a due binding fails, the loop body raises
    nothing and sets [next_due] to [now + interval_ms / 1000.0], the
    binding ending exactly as it does when the write succeeds; the nodes
    keep their values, and until that time the binding is not due: the
    loop body issues no read and no write for it. *)
Theorem write_failure_still_advances (pf : Platform) (dt : Z) (now : float)
    (b : SimBinding) (srv : Server) (k : nat) (interval_ms : Z)
    (current new_value casted : pyval) (d : float) :
  py_int (dict_get (simulation b) "interval_ms" (VInt dt)) = Ok interval_ms ->
  (now <? next_due b)%float = false ->
  snd (read_value srv (node b)) = Ok current ->
  gen_value (generate pf interval_ms b k current) = Ok new_value ->
  _cast (dtype b) new_value = Ok casted ->
  int_truediv interval_ms 1000 = Ok d ->
  write_fails srv (node b) casted = true ->
  let v := tick_binding pf dt now b srv k in
  vis_exn v = None
  /\ next_due (vis_binding v) = (now + d)%float
  /\ nodes (vis_server v) = nodes srv
  /\ calls (vis_server v) = (calls srv ++ [EvRead (node b); EvWrite (node b) casted])%list
  /\ (forall srv',
        snd (read_value srv' (node b)) = Ok current ->
        write_fails srv' (node b) casted = false ->
        vis_binding (tick_binding pf dt now b srv' k) = vis_binding v
        /\ vis_exn (tick_binding pf dt now b srv' k) = None)
  /\ (forall now' srv' k',
        (now' <? now + d)%float = true ->
        tick_binding pf dt now' (vis_binding v) srv' k'
        = {| vis_binding := vis_binding v; vis_server := srv'; vis_draws := k';
             vis_exn := None |}).
Proof.
  intros Hint Hdue Hread Hgen Hcast Hdiv Hw v. subst v.
  rewrite (tick_binding_written _ _ _ _ _ _ _ _ _ _ _ Hint Hdue Hread Hgen Hcast Hdiv).
  cbn [vis_exn vis_binding vis_server].
  destruct (generate_keeps pf interval_ms b k current) as (_ & _ & _ & Hs & _).
  split; [reflexivity|]. split; [reflexivity|]. split; [|split; [|split]].
  - rewrite write_value_failed by (rewrite write_fails_log_call; exact Hw). reflexivity.
  - rewrite write_value_calls. cbn [calls log_call]. rewrite <- app_assoc. reflexivity.
  - intros srv' Hread' _.
    rewrite (tick_binding_written _ _ _ _ _ _ _ _ _ _ _ Hint Hdue Hread' Hgen Hcast Hdiv).
    split; reflexivity.
  - intros now' srv' k' Hnot. eapply tick_binding_not_due.
    + cbn [simulation set_next_due]. rewrite Hs. exact Hint.
    + exact Hnot.
Qed.

Lemma write_failure_still_advances_witness :
  let v := tick_binding example_platform 500 150 rpm_binding
             (client_write "ns=2;s=Machine.RPM" (VInt 2850) rpm_unwritable) 0 in
  vis_exn v = None
  /\ next_due (vis_binding v) = 0x1.2d9999999999ap+7%float
  /\ node_value (vis_server v) "ns=2;s=Machine.RPM" = Some (VInt 2850).
Proof.
  pose (srv := client_write "ns=2;s=Machine.RPM" (VInt 2850) rpm_unwritable).
  assert (Hread : snd (read_value srv (node rpm_binding)) = Ok (VInt 2850))
    by (vm_compute; reflexivity).
  assert (Hgen : gen_value (generate example_platform 800 rpm_binding 0 (VInt 2850))
                 = Ok (VFloat 3000)) by (vm_compute; reflexivity).
  assert (Hcast : _cast (dtype rpm_binding) (VFloat 3000) = Ok (VInt 3000))
    by (vm_compute; reflexivity).
  assert (Hdiv : int_truediv 800 1000 = Ok 0x1.999999999999ap-1%float)
    by (vm_compute; reflexivity).
  assert (Hw : write_fails srv (node rpm_binding) (VInt 3000) = true)
    by (vm_compute; reflexivity).
  destruct (write_failure_still_advances example_platform 500 150 rpm_binding srv 0 800
              (VInt 2850) (VFloat 3000) (VInt 3000) 0x1.999999999999ap-1%float
              eq_refl eq_refl Hread Hgen Hcast Hdiv Hw) as (He & Hn & Hnodes & _).
  fold srv. cbv zeta. split; [exact He|]. split.
  - rewrite Hn. vm_compute. reflexivity.
  - unfold node_value. rewrite Hnodes. vm_compute. reflexivity.
Defined.

(** *** Modes the tick does not know *)

Lemma generate_unknown (pf : Platform) (interval_ms : Z) (b : SimBinding) (k : nat)
    (current : pyval) :
  printable (dict_get (simulation b) "mode" (VStr "")) = true ->
  PyStr.mem (binding_mode b) known_modes = false ->
  generate pf interval_ms b k current
  = {| gen_binding := b; gen_draws := k; gen_value := Ok current |}.
Proof.
  unfold PyStr.mem, known_modes. cbn [existsb]. intros Hp H.
  repeat (apply orb_false_elim in H as [?H H]).
  unfold generate. rewrite Hp, H0, H1, H2, H3, H4, H5. reflexivity.
Qed.

Lemma read_value_ok (srv : Server) (h : string) (v : pyval) :
  snd (read_value srv h) = Ok v -> node_value srv h = Some v.
Proof.
  unfold read_value. destruct (decide _) as [Hin|Hout]; [discriminate|].
  destruct (node_value srv h); [|discriminate]. cbn. congruence.
Qed.

Lemma node_value_log_call (srv : Server) (ev : event) (h : string) :
  node_value (log_call srv ev) h = node_value srv h.
Proof. reflexivity. Qed.

(** C8, as stated, fails: the int variable of [hold_config] is in the
    mode ["hold"], which the tick does not know; when a client has written
    9007199254740993 to it, the tick reads that value and leaves
    9007199254740992 in the node. *)
Lemma unknown_mode_rounds_large_int :
  exists sim b,
    start example_platform hold_config = Some sim
    /\ bindings sim = [b]
    /\ PyStr.mem (binding_mode b) known_modes = false
    /\ let srv := client_write (node b) (VInt 9007199254740993) (server sim) in
       let v := tick_binding example_platform (default_tick_ms sim) 110 b srv 0 in
       snd (read_value srv (node b)) = Ok (VInt 9007199254740993)
       /\ vis_exn v = None
       /\ node_value (vis_server v) (node b) = Some (VInt 9007199254740992)
       /\ node_value (vis_server v) (node b) <> node_value srv (node b).
Proof.
  eexists. eexists.
  split; [vm_compute; reflexivity|].
  split; [reflexivity|].
  split; [vm_compute; reflexivity|].
  cbv zeta. split; [vm_compute; reflexivity|].
  split; [vm_compute; reflexivity|].
  split; [vm_compute; reflexivity|].
  vm_compute. discriminate.
Qed.

(** C8 (amended): on a due binding whose mode is empty or none of the six
    known modes, and has a text, the generator returns the value read and
    the tick writes [_cast(dtype, value read)] back. When the write
    succeeds the node holds that coerced value, when it fails the node
    keeps the value read; so the node's value after the tick equals the
    value read whenever the coercion leaves that value as it is, which it
    does for a bool under a bool tag, an int of at most 53 bits under an
    int tag, a float under a float tag and a string under any other tag.
    A mode that has no text (an int of more than 4300 digits) makes
    [str(mode)] raise [ValueError] after the read: nothing is written and
    the node keeps the value read. *)
Theorem unknown_mode_writes_coerced_value (pf : Platform) (dt : Z) (now : float)
    (b : SimBinding) (srv : Server) (k : nat) (interval_ms : Z)
    (current casted : pyval) (d : float) :
  py_int (dict_get (simulation b) "interval_ms" (VInt dt)) = Ok interval_ms ->
  (now <? next_due b)%float = false ->
  snd (read_value srv (node b)) = Ok current ->
  PyStr.mem (binding_mode b) known_modes = false ->
  _cast (dtype b) current = Ok casted ->
  int_truediv interval_ms 1000 = Ok d ->
  let v := tick_binding pf dt now b srv k in
  (printable (dict_get (simulation b) "mode" (VStr "")) = true ->
   gen_value (generate pf interval_ms b k current) = Ok current
   /\ vis_exn v = None
   /\ calls (vis_server v) = (calls srv ++ [EvRead (node b); EvWrite (node b) casted])%list
   /\ (write_fails srv (node b) casted = false ->
       node_value (vis_server v) (node b) = Some casted)
   /\ (write_fails srv (node b) casted = true ->
       node_value (vis_server v) (node b) = Some current)
   /\ (casted = current -> node_value (vis_server v) (node b) = Some current))
  /\ (printable (dict_get (simulation b) "mode" (VStr "")) = false ->
      vis_exn v = Some ValueError
      /\ vis_binding v = b
      /\ calls (vis_server v) = (calls srv ++ [EvRead (node b)])%list
      /\ node_value (vis_server v) (node b) = Some current)
  /\ (PyStr.mem (cast_tag (dtype b)) bool_tags = true ->
      forall x : bool, current = VBool x -> casted = current)
  /\ (PyStr.mem (cast_tag (dtype b)) int_tags = true ->
      forall n, current = VInt n -> Z.abs n <= 2 ^ 53 -> casted = current)
  /\ (PyStr.mem (cast_tag (dtype b)) float_tags = true ->
      forall f, current = VFloat f -> casted = current)
  /\ (PyStr.mem (cast_tag (dtype b)) bool_tags = false ->
      PyStr.mem (cast_tag (dtype b)) int_tags = false ->
      PyStr.mem (cast_tag (dtype b)) float_tags = false ->
      forall s, current = VStr s -> casted = current).
Proof.
  intros Hint Hdue Hread Hmode Hcast Hdiv v.
  destruct (cast_identity (dtype b)) as (Ib & Ii & If & Is).
  split; [|split; [|split; [|split; [|split]]]].
  - intros Hp.
    pose proof (generate_unknown pf interval_ms b k current Hp Hmode) as Hg.
    assert (Hgen : gen_value (generate pf interval_ms b k current) = Ok current)
      by (rewrite Hg; reflexivity).
    subst v.
    rewrite (tick_binding_written _ _ _ _ _ _ _ _ _ _ _ Hint Hdue Hread Hgen Hcast Hdiv).
    cbn [vis_exn vis_server].
    assert (Hok : write_fails srv (node b) casted = false ->
                  node_value (fst (write_value (log_call srv (EvRead (node b))) (node b) casted))
                    (node b) = Some casted).
    { intros Hw. apply write_value_ok. rewrite write_fails_log_call. exact Hw. }
    assert (Hko : write_fails srv (node b) casted = true ->
                  node_value (fst (write_value (log_call srv (EvRead (node b))) (node b) casted))
                    (node b) = Some current).
    { intros Hw. unfold node_value.
      rewrite write_value_failed by (rewrite write_fails_log_call; exact Hw).
      apply read_value_ok in Hread. exact Hread. }
    split; [exact Hgen|]. split; [reflexivity|].
    split; [rewrite write_value_calls; cbn [calls log_call]; rewrite <- app_assoc; reflexivity|].
    split; [exact Hok|]. split; [exact Hko|].
    intros <-. destruct (write_fails srv (node b) casted) eqn:Hw; auto.
  - intros Hp. subst v. unfold tick_binding.
    rewrite Hint, Hdue, read_value_split, Hread. cbv zeta.
    rewrite (generate_unprintable pf interval_ms b k current Hp).
    cbn [gen_value gen_binding gen_draws vis_exn vis_binding vis_server].
    split; [reflexivity|]. split; [reflexivity|]. split; [reflexivity|].
    rewrite node_value_log_call. apply read_value_ok. exact Hread.
  - intros Ht x ->. rewrite (Ib Ht x) in Hcast. congruence.
  - intros Ht n -> Hn. rewrite (Ii Ht n Hn) in Hcast. congruence.
  - intros Ht f ->. rewrite (If Ht f) in Hcast. congruence.
  - intros Hb Hi Hf s ->. rewrite (Is Hb Hi Hf s) in Hcast. congruence.
Qed.

Lemma unknown_mode_writes_coerced_value_witness :
  let b := {| node := "ns=2;s=Machine.RPM"; node_id := "ns=2;s=Machine.RPM"; dtype := "int";
              simulation := [("mode", VStr "hold"); ("interval_ms", VInt 800)];
              next_due := 0; cycle_index := 0; phase := 0 |} in
  let srv := client_write "ns=2;s=Machine.RPM" (VInt 2850) (server example_simulator) in
  node_value (vis_server (tick_binding example_platform 500 150 b srv 0)) "ns=2;s=Machine.RPM"
  = Some (VInt 2850).
Proof.
  intros b srv.
  assert (Hread : snd (read_value srv (node b)) = Ok (VInt 2850))
    by (vm_compute; reflexivity).
  assert (Hcast : _cast (dtype b) (VInt 2850) = Ok (VInt 2850))
    by (vm_compute; reflexivity).
  assert (Hdiv : int_truediv 800 1000 = Ok 0x1.999999999999ap-1%float)
    by (vm_compute; reflexivity).
  destruct (unknown_mode_writes_coerced_value example_platform 500 150 b srv 0 800
              (VInt 2850) (VInt 2850) 0x1.999999999999ap-1%float
              eq_refl eq_refl Hread eq_refl Hcast Hdiv) as (H & _).
  destruct (H eq_refl) as (_ & _ & _ & _ & _ & Hsame).
  exact (Hsame eq_refl).
Defined.

(** A mode without a text stops the loop: the variable of
    [numeric_mode_config] has an int of 4301 digits as its mode, which
    [setup] accepts as it is truthy; the first tick reads the node and
    raises [ValueError] at [str(mode)]. *)
Example numeric_mode_stops_the_loop :
  start example_platform numeric_mode_config = Some numeric_mode_simulator
  /\ bindings numeric_mode_simulator = [numeric_mode_binding]
  /\ printable (dict_get (simulation numeric_mode_binding) "mode" (VStr "")) = false
  /\ PyStr.mem (binding_mode numeric_mode_binding) known_modes = false
  /\ vis_exn (tick_binding example_platform (default_tick_ms numeric_mode_simulator) 110
                numeric_mode_binding (server numeric_mode_simulator) 0)
     = Some ValueError
  /\ (run example_platform [id] numeric_mode_simulator).2 = Some ValueError.
Proof. repeat split; vm_compute; reflexivity. Qed.

(** *** What a tick can raise *)

















(** *** Values with a text *)






(** *** Bindings that convert nothing *)










(** An error that is no conversion error of [int()] or [float()] leaves
    the loop as well: the sine of [steep_sine_config] passes two ticks,
    and on the third its phase is an infinity and [math.sin] raises
    [ValueError]. *)
Lemma infinite_phase_stops_the_loop :
  exists sim,
    start example_platform steep_sine_config = Some sim
    /\ (run example_platform [id; id] sim).2 = None
    /\ (run example_platform [id; id; id] sim).2 = Some ValueError.
Proof.
  eexists. split; [vm_compute; reflexivity|].
  split; vm_compute; reflexivity.
Qed.



(** ** The due times *)

Lemma steady_clock_spec (pf : Platform) (n : nat) :
  steady_clock pf n = true ->
  forall j k, (j <= k)%nat -> (k < n)%nat ->
    is_finite (monotonic pf j) = true /\ is_finite (monotonic pf k) = true
    /\ (monotonic pf j <=? monotonic pf k)%float = true.
Proof.
  unfold steady_clock. intros H. apply andb_prop in H as [Hfin Hstep].
  rewrite forallb_forall in Hfin, Hstep.
  assert (Hf : forall k, (k < n)%nat -> is_finite (monotonic pf k) = true).
  { intros k Hk. apply Hfin. apply in_seq. lia. }
  intros j k Hjk Hk. split; [apply Hf; lia|]. split; [apply Hf; lia|].
  induction k as [|k IH].
  - replace j with 0%nat by lia. apply leb_refl.
    specialize (Hf 0%nat Hk). unfold is_finite in Hf.
    apply negb_true_iff, orb_false_elim in Hf as [Hnan _]. exact Hnan.
  - destruct (Nat.eq_dec j (S k)) as [->|Hne].
    + apply leb_refl. specialize (Hf (S k) Hk). unfold is_finite in Hf.
      apply negb_true_iff, orb_false_elim in Hf as [Hnan _]. exact Hnan.
    + apply (leb_trans _ (monotonic pf k)).
      * apply IH; lia.
      * apply Hstep. apply in_seq. lia.
Qed.

Lemma scheduled_later (pf : Platform) (dt : Z) (c c' : nat) (b : SimBinding) :
  (c <= c')%nat -> scheduled pf dt c b -> scheduled pf dt c' b.
Proof.
  intros Hc (j & n & d & Hj & Hint & Hdiv & Hdue).
  exists j, n, d. repeat split; try assumption. lia.
Qed.

Lemma scheduled_ext (pf : Platform) (dt : Z) (c : nat) (b b' : SimBinding) :
  simulation b' = simulation b -> next_due b' = next_due b ->
  scheduled pf dt c b -> scheduled pf dt c b'.
Proof.
  intros Hs Hd (j & n & d & Hj & Hint & Hdiv & Hdue).
  exists j, n, d. rewrite Hs, Hd. repeat split; assumption.
Qed.

(** A due time on schedule is a number. *)
Lemma scheduled_number (pf : Platform) (dt : Z) (c : nat) (b : SimBinding) :
  steady_clock pf c = true -> scheduled pf dt c b ->
  (next_due b <=? next_due b)%float = true.
Proof.
  intros Hclock (j & n & d & Hj & Hint & Hdiv & Hdue). rewrite Hdue.
  destruct (steady_clock_spec pf c Hclock j j) as (Hfin & _ & Hle); [lia|lia|].
  apply float_add_mono; try assumption. apply (int_truediv_number n). exact Hdiv.
Qed.

(** The loop body keeps a binding on schedule and does not move its due
    time back. *)
Lemma tick_binding_forward (pf : Platform) (dt : Z) (c : nat) (b : SimBinding)
    (srv : Server) (k : nat) :
  steady_clock pf (S c) = true -> scheduled pf dt c b ->
  let b' := vis_binding (tick_binding pf dt (monotonic pf c) b srv k) in
  scheduled pf dt (S c) b' /\ (next_due b <=? next_due b')%float = true.
Proof.
  intros Hclock Hb.
  assert (Hb' : scheduled pf dt (S c) b) by (apply (scheduled_later pf dt c); [lia|exact Hb]).
  pose proof (scheduled_number pf dt (S c) b Hclock Hb') as Hrefl.
  destruct Hb as (j & n & d & Hj & Hint & Hdiv & Hdue).
  unfold tick_binding. rewrite Hint.
  destruct (monotonic pf c <? next_due b)%float; [cbn; tauto|].
  rewrite read_value_split.
  destruct (snd (read_value srv (node b))) as [current|e]; [|cbn; tauto].
  destruct (generate_keeps pf n b k current) as (_ & _ & _ & Hs & Hd).
  assert (Hkept : scheduled pf dt (S c) (gen_binding (generate pf n b k current)))
    by (apply (scheduled_ext pf dt (S c) b); assumption).
  destruct (gen_value _); [|cbn; rewrite Hd; tauto].
  destruct (_cast _ _); [|cbn; rewrite Hd; tauto].
  rewrite Hdiv. cbn [vis_binding]. split.
  - exists c, n, d. cbn [set_next_due simulation next_due]. rewrite Hs.
    repeat split; try assumption. lia.
  - cbn [set_next_due next_due]. rewrite Hdue.
    destruct (steady_clock_spec pf (S c) Hclock j c) as (Hfj & Hfc & Hle); [lia|lia|].
    apply float_add_mono; try assumption. apply (int_truediv_number n). exact Hdiv.
Qed.

Lemma tick_loop_forward (pf : Platform) (dt : Z) (c : nat) (bs : list SimBinding)
    (srv : Server) (k : nat) :
  steady_clock pf (S c) = true -> Forall (scheduled pf dt c) bs ->
  let bs' := (tick_loop pf dt (monotonic pf c) bs srv k).1.1.1 in
  Forall (scheduled pf dt (S c)) bs' /\ due_forward bs bs'.
Proof.
  intros Hclock. revert srv k.
  induction bs as [|b rest IH]; intros srv k Hbs; cbn [tick_loop].
  - split; constructor.
  - apply Forall_cons in Hbs as [Hb Hrest].
    destruct (tick_binding_forward pf dt c b srv k Hclock Hb) as [Hs Hle].
    destruct (vis_exn (tick_binding pf dt (monotonic pf c) b srv k)) as [e|].
    + cbn. split.
      * constructor; [exact Hs|].
        eapply Forall_impl; [exact Hrest|]. intros x. apply scheduled_later. lia.
      * constructor; [exact Hle|].
        unfold due_forward. apply Forall_Forall2_diag.
        eapply Forall_impl; [exact Hrest|]. intros x Hx.
        apply (scheduled_number pf dt (S c)); [exact Hclock|].
        apply (scheduled_later pf dt c); [lia|exact Hx].
    + specialize (IH (vis_server (tick_binding pf dt (monotonic pf c) b srv k))
                     (vis_draws (tick_binding pf dt (monotonic pf c) b srv k)) Hrest).
      destruct (tick_loop _ _ _ _ _ _) as [[[rest' srv'] k'] r]. cbn in IH |- *.
      destruct IH as [IH1 IH2]. split; constructor; assumption.
Qed.

Lemma tick_forward (pf : Platform) (sim : PlcSimulator) :
  steady_clock pf (S (clock_reads sim)) = true -> on_schedule pf sim ->
  let sim' := (_tick pf sim).1 in
  on_schedule pf sim' /\ clock_reads sim' = S (clock_reads sim)
  /\ due_forward (bindings sim) (bindings sim').
Proof.
  intros Hclock Hsim. unfold _tick.
  pose proof (tick_loop_forward pf (default_tick_ms sim) (clock_reads sim) (bindings sim)
                (server sim) (draws sim) Hclock Hsim) as H.
  destruct (tick_loop _ _ _ _ _ _) as [[[bs srv] k] r]. cbn in H |- *.
  destruct H as [H1 H2]. split; [exact H1|]. split; [reflexivity|exact H2].
Qed.

Lemma steady_clock_earlier (pf : Platform) (n m : nat) :
  (m <= n)%nat -> steady_clock pf n = true -> steady_clock pf m = true.
Proof.
  unfold steady_clock. intros Hm H. apply andb_prop in H as [Hfin Hstep].
  rewrite forallb_forall in Hfin, Hstep.
  apply andb_true_intro. split; apply forallb_forall; intros k Hk; apply in_seq in Hk.
  - apply Hfin. apply in_seq. lia.
  - apply Hstep. apply in_seq. lia.
Qed.

Lemma due_forward_refl (pf : Platform) (sim : PlcSimulator) :
  steady_clock pf (clock_reads sim) = true -> on_schedule pf sim ->
  due_forward (bindings sim) (bindings sim).
Proof.
  intros Hclock Hsim. unfold due_forward. apply Forall_Forall2_diag.
  eapply Forall_impl; [exact Hsim|]. intros x. apply scheduled_number. exact Hclock.
Qed.

Lemma due_forward_trans (l1 l2 l3 : list SimBinding) :
  due_forward l1 l2 -> due_forward l2 l3 -> due_forward l1 l3.
Proof.
  unfold due_forward. intros H12. revert l3.
  induction H12 as [|x y l1 l2 Hxy _ IH]; intros l3 H23; inversion H23; subst; constructor.
  - eapply leb_trans; eassumption.
  - apply IH. assumption.
Qed.

Lemma tick_clock (pf : Platform) (sim : PlcSimulator) :
  clock_reads (_tick pf sim).1 = S (clock_reads sim).
Proof. unfold _tick. destruct (tick_loop _ _ _ _ _ _) as [[[bs srv] k] r]. reflexivity. Qed.

Lemma run_clock (pf : Platform) (world : list (Server -> Server)) (sim : PlcSimulator) :
  (clock_reads sim <= clock_reads (run pf world sim).1)%nat.
Proof.
  revert sim. induction world as [|act rest IH]; intros sim; cbn [run]; [cbn; lia|].
  pose proof (tick_clock pf (with_server sim (act (server sim)))) as Hc.
  destruct (_tick pf (with_server sim (act (server sim)))) as [sim' [e|]]; cbn in Hc |- *.
  - lia.
  - destruct (int_truediv _ _); [|cbn; lia].
    specialize (IH sim'). lia.
Qed.

(** Over a run the bindings stay on schedule and no due time goes back. *)
Lemma run_forward (pf : Platform) (world : list (Server -> Server)) (sim : PlcSimulator) :
  steady_clock pf (clock_reads (run pf world sim).1) = true -> on_schedule pf sim ->
  on_schedule pf (run pf world sim).1
  /\ due_forward (bindings sim) (bindings (run pf world sim).1).
Proof.
  revert sim. induction world as [|act rest IH]; intros sim; cbn [run].
  - cbn. intros Hclock Hsim. split; [exact Hsim|]. apply (due_forward_refl pf); assumption.
  - pose proof (run_clock pf rest (_tick pf (with_server sim (act (server sim)))).1) as Hlater.
    pose proof (tick_forward pf (with_server sim (act (server sim)))) as Htick.
    pose proof (tick_clock pf (with_server sim (act (server sim)))) as Hc.
    cbn [with_server clock_reads bindings] in Htick, Hc.
    destruct (_tick pf (with_server sim (act (server sim)))) as [sim' [e|]];
      cbn in Htick, Hlater, Hc |- *.
    + intros Hclock Hsim. rewrite Hc in Hclock.
      destruct (Htick Hclock Hsim) as (H1 & _ & H3). split; assumption.
    + destruct (int_truediv _ _) as [d|e].
      * intros Hclock Hsim.
        assert (Hclock' : steady_clock pf (S (clock_reads sim)) = true).
        { apply (steady_clock_earlier pf (clock_reads (run pf rest sim').1)); [lia|exact Hclock]. }
        destruct (Htick Hclock' Hsim) as (H1 & _ & H3).
        destruct (IH sim' Hclock H1) as [H4 H5].
        split; [exact H4|]. eapply due_forward_trans; eassumption.
      * cbn. intros Hclock Hsim. rewrite Hc in Hclock.
        destruct (Htick Hclock Hsim) as (H1 & _ & H3). split; assumption.
Qed.

(** *** [setup] puts the bindings on schedule *)

Lemma setup_item_schedule (pf : Platform) (ns_idx : Z) (root_name : pyval) (st : Setup)
    (item : list (string * pyval)) :
  on_schedule pf (su_sim st) ->
  on_schedule pf (su_sim (setup_item pf ns_idx root_name st item).1).
Proof.
  intros Hst. unfold setup_item.
  destruct (item_texts root_name item) as [texts|e]; [|exact Hst].
  destruct (item_initial item) as [initial|e]; [|exact Hst].
  destruct (_split_path _) as [parent_path leaf].
  destruct (_ensure_object_path _ _ _ _ _) as [[srv1 cache1] [parent|e]]; [|exact Hst].
  destruct (item_node_id_text item) as [text|e]; [|exact Hst].
  destruct (add_variable _ _ _ _ _) as [srv2 [var_node|e]]; [|exact Hst].
  destruct (if item_writable item then _ else _) as [srv3 [rw|e]]; [|exact Hst].
  destruct (dict_get item "simulation" VNone) as [| | | | | |sim_cfg]; try exact Hst.
  destruct (py_bool _); [|exact Hst].
  destruct (py_int _) as [interval_ms|e] eqn:Hint; [|exact Hst].
  destruct (int_truediv _ _) as [d|e] eqn:Hdiv; [|exact Hst].
  unfold on_schedule. cbn [fst su_sim bindings default_tick_ms clock_reads].
  apply Forall_app. split.
  - eapply Forall_impl; [exact Hst|]. intros x. apply scheduled_later. lia.
  - constructor; [|constructor].
    exists (clock_reads (su_sim st)), interval_ms, d.
    cbn [simulation next_due]. repeat split; try assumption. lia.
Qed.

Lemma setup_items_schedule (pf : Platform) (ns_idx : Z) (root_name : pyval)
    (variables : list pyval) (st : Setup) :
  on_schedule pf (su_sim st) ->
  on_schedule pf (su_sim (setup_items pf ns_idx root_name st variables).1).
Proof.
  revert st. induction variables as [|v rest IH]; intros st Hst; cbn [setup_items].
  - exact Hst.
  - destruct v as [| | | | | |item]; try (apply IH; exact Hst).
    pose proof (setup_item_schedule pf ns_idx root_name st item Hst) as Hitem.
    destruct (setup_item pf ns_idx root_name st item) as [st' [e|]]; cbn [fst] in Hitem.
    + exact Hitem.
    + apply IH. exact Hitem.
Qed.

Lemma setup_schedule (pf : Platform) (ns_idx : Z) (sim : PlcSimulator) :
  on_schedule pf sim -> on_schedule pf (setup pf ns_idx sim).1.
Proof.
  intros Hsim. unfold setup.
  destruct (py_get (cfg sim) "server" _) as [server_cfg|e]; [|exact Hsim].
  destruct (py_get server_cfg "endpoint" _) as [endpoint|e]; [|exact Hsim].
  destruct (py_get server_cfg "namespace_uri" _) as [namespace_uri|e]; [|exact Hsim].
  destruct (print_endpoint endpoint namespace_uri) as [printed|e]; [|exact Hsim].
  destruct (py_get (cfg sim) "model" _) as [model|e]; [|exact Hsim].
  destruct (py_get model "root" _) as [root_name|e]; [|exact Hsim].
  destruct (str_of_value root_name) as [root_path|e]; [|exact Hsim].
  destruct (_ensure_object_path _ _ _ _ _) as [[srv1 cache1] [root|e]]; [|exact Hsim].
  destruct (py_get model "variables" _) as [variables|e]; [|exact Hsim].
  destruct variables as [| | | | |variables|]; try exact Hsim.
  pose proof (setup_items_schedule pf ns_idx root_name variables
                {| su_sim := with_server sim srv1; su_cache := cache1 |} Hsim) as H.
  destruct (setup_items _ _ _ _ _) as [st r]. exact H.
Qed.

Lemma start_schedule (pf : Platform) (config : pyval) (sim : PlcSimulator) :
  start pf config = Some sim -> on_schedule pf sim.
Proof.
  unfold start. destruct (PlcSimulator_init config) as [sim0|e] eqn:Hinit; [|discriminate].
  assert (H0 : on_schedule pf sim0).
  { unfold PlcSimulator_init in Hinit.
    destruct (py_get config "server" _) as [server_cfg|e]; [|discriminate].
    cbn [rbind] in Hinit.
    destruct (py_get server_cfg "tick_ms" _) as [tick_ms|e]; [|discriminate].
    cbn [rbind] in Hinit.
    destruct (py_int tick_ms) as [n|e]; [|discriminate].
    cbn [rbind] in Hinit. injection Hinit as <-. constructor. }
  pose proof (setup_schedule pf 2 sim0 H0) as H.
  destruct (setup pf 2 sim0) as [sim' [e|]]; [discriminate|].
  intros [= <-]. exact H.
Qed.

(** C9: in every run of a started simulator whose clock readings are
    finite and never go back, each binding keeps its place in the list and
    its [next_due] at any later point of the run is greater than or equal
    to its [next_due] before: ticks never move [next_due] back, whatever
    the interval. *)
Theorem next_due_never_decreases (pf : Platform) (config : pyval)
    (world world' : list (Server -> Server)) (sim0 sim1 sim2 : PlcSimulator)
    (r1 r2 : option exn) (i : nat) (b1 : SimBinding) :
  start pf config = Some sim0 ->
  run pf world sim0 = (sim1, r1) ->
  run pf world' sim1 = (sim2, r2) ->
  steady_clock pf (clock_reads sim2) = true ->
  bindings sim1 !! i = Some b1 ->
  exists b2, bindings sim2 !! i = Some b2 /\ (next_due b1 <=? next_due b2)%float = true.
Proof.
  intros Hstart Hrun1 Hrun2 Hclock Hb1.
  pose proof (start_schedule pf config sim0 Hstart) as H0.
  pose proof (run_clock pf world' sim1) as Hc. rewrite Hrun2 in Hc. cbn [fst] in Hc.
  pose proof (run_forward pf world sim0) as H1. rewrite Hrun1 in H1. cbn [fst] in H1.
  destruct H1 as [H1 _]; [apply (steady_clock_earlier pf _ _ Hc Hclock)|exact H0|].
  pose proof (run_forward pf world' sim1) as H2. rewrite Hrun2 in H2. cbn [fst] in H2.
  destruct H2 as [_ H2]; [exact Hclock|exact H1|].
  exact (Forall2_lookup_l _ _ _ _ _ H2 Hb1).
Qed.

Lemma next_due_never_decreases_witness :
  exists b2,
    bindings (run example_platform [id; id]
                (run example_platform [id] negative_interval_simulator).1).1 !! 0%nat
    = Some b2
    /\ (80 <=? next_due b2)%float = true.
Proof.
  assert (H0 : start example_platform negative_interval_config
               = Some negative_interval_simulator) by (vm_compute; reflexivity).
  assert (Hclock : steady_clock example_platform
                     (clock_reads (run example_platform [id; id]
                        (run example_platform [id] negative_interval_simulator).1).1) = true)
    by (vm_compute; reflexivity).
  assert (Hb : bindings (run example_platform [id] negative_interval_simulator).1 !! 0%nat
               = Some {| node := "ns=2;s=Machine.Running"; node_id := "ns=2;s=Machine.Running";
                         dtype := "bool";
                         simulation := [("mode", VStr "toggle");
                                        ("interval_ms", VInt (-30000))];
                         next_due := 80; cycle_index := 0; phase := 0 |})
    by (vm_compute; reflexivity).
  exact (next_due_never_decreases example_platform negative_interval_config [id] [id; id]
           negative_interval_simulator _ _ _ _ 0%nat _
           H0 (surjective_pairing _) (surjective_pairing _) Hclock Hb).
Defined.

(** ** Paths *)

Lemma string_app_cons (c : ascii) (s t : string) :
  (String c s ++ t)%string = String c (s ++ t)%string.
Proof. reflexivity. Qed.

Lemma string_app_nil_l (t : string) : ("" ++ t)%string = t.
Proof. reflexivity. Qed.

Lemma string_app_assoc (s t u : string) :
  ((s ++ t) ++ u)%string = (s ++ (t ++ u))%string.
Proof.
  induction s as [|c s IH]; [reflexivity|].
  rewrite !string_app_cons, IH. reflexivity.
Qed.

Lemma string_app_length (s t : string) :
  String.length (s ++ t)%string = (String.length s + String.length t)%nat.
Proof.
  induction s as [|c s IH]; [reflexivity|].
  rewrite string_app_cons. cbn [String.length]. rewrite IH. reflexivity.
Qed.

Lemma split_not_nil (sep : ascii) (s : string) : PyStr.split sep s <> [].
Proof.
  destruct s as [|c s]; cbn [PyStr.split]; [discriminate|].
  destruct (Ascii.eqb c sep); [discriminate|].
  destruct (PyStr.split sep s); discriminate.
Qed.

(** No part of a split contains the separator. *)
Lemma split_no_sep (sep : ascii) (s : string) :
  Forall (fun w => PyStr.contains sep w = false) (PyStr.split sep s).
Proof.
  induction s as [|c s IH]; cbn [PyStr.split].
  - constructor; [reflexivity|constructor].
  - destruct (Ascii.eqb c sep) eqn:E.
    + constructor; [reflexivity|exact IH].
    + destruct (PyStr.split sep s) as [|w ws].
      * constructor; [|constructor]. cbn [PyStr.contains]. rewrite E. reflexivity.
      * apply Forall_cons in IH as [Hw Hws]. constructor; [|exact Hws].
        cbn [PyStr.contains]. rewrite E, Hw. reflexivity.
Qed.

Lemma split_without_sep (sep : ascii) (s : string) :
  PyStr.contains sep s = false -> PyStr.split sep s = [s].
Proof.
  induction s as [|c s IH]; [reflexivity|].
  cbn [PyStr.contains PyStr.split]. intros H. apply orb_false_elim in H as [Hc Hs].
  rewrite Hc, (IH Hs). reflexivity.
Qed.

Lemma split_app_sep (sep : ascii) (p rest : string) :
  PyStr.contains sep p = false ->
  PyStr.split sep (p ++ String sep rest) = p :: PyStr.split sep rest.
Proof.
  induction p as [|c p IH].
  - intros _. rewrite string_app_nil_l. cbn [PyStr.split]. rewrite Ascii.eqb_refl. reflexivity.
  - cbn [PyStr.contains]. intros H. apply orb_false_elim in H as [Hc Hp].
    rewrite string_app_cons. cbn [PyStr.split]. rewrite Hc, (IH Hp). reflexivity.
Qed.

(** Splitting a join of separator-free parts gives the parts back. *)
Lemma split_join (sep : ascii) (parts : list string) :
  parts <> [] -> Forall (fun w => PyStr.contains sep w = false) parts ->
  PyStr.split sep (PyStr.join (String sep "") parts) = parts.
Proof.
  induction parts as [|p rest IH]; [congruence|]. intros _ Hall.
  apply Forall_cons in Hall as [Hp Hrest].
  destruct rest as [|q rest].
  - cbn [PyStr.join]. apply split_without_sep. exact Hp.
  - change (PyStr.join (String sep "") (p :: q :: rest))
      with (p ++ String sep "" ++ PyStr.join (String sep "") (q :: rest))%string.
    rewrite string_app_cons, string_app_nil_l, split_app_sep by exact Hp.
    rewrite IH; [reflexivity|discriminate|exact Hrest].
Qed.

Lemma join_snoc (sep : string) (xs : list string) (x : string) :
  xs <> [] ->
  PyStr.join sep (xs ++ [x]) = (PyStr.join sep xs ++ sep ++ x)%string.
Proof.
  induction xs as [|a xs IH]; [congruence|]. intros _.
  destruct xs as [|b xs]; [reflexivity|].
  change (PyStr.join sep ((a :: b :: xs) ++ [x]))
    with (a ++ sep ++ PyStr.join sep ((b :: xs) ++ [x]))%string.
  rewrite IH by discriminate.
  change (PyStr.join sep (a :: b :: xs)) with (a ++ sep ++ PyStr.join sep (b :: xs))%string.
  rewrite !string_app_assoc. reflexivity.
Qed.

Lemma contains_app_sep (sep : ascii) (p rest : string) :
  PyStr.contains sep (p ++ String sep rest) = true.
Proof.
  induction p as [|c p IH].
  - rewrite string_app_nil_l. cbn [PyStr.contains]. rewrite Ascii.eqb_refl. reflexivity.
  - rewrite string_app_cons. cbn [PyStr.contains]. rewrite IH. apply orb_true_r.
Qed.

Lemma rsplit1_without_sep (sep : ascii) (s : string) :
  PyStr.contains sep s = false -> PyStr.rsplit1 sep s = None.
Proof.
  induction s as [|c s IH]; [reflexivity|].
  cbn [PyStr.contains PyStr.rsplit1]. intros H. apply orb_false_elim in H as [Hc Hs].
  rewrite (IH Hs), Hc. reflexivity.
Qed.

(** [rsplit] cuts at the last separator. *)
Lemma rsplit1_app_sep (sep : ascii) (p l : string) :
  PyStr.contains sep l = false ->
  PyStr.rsplit1 sep (p ++ String sep l) = Some (p, l).
Proof.
  intros Hl. induction p as [|c p IH].
  - rewrite string_app_nil_l. cbn [PyStr.rsplit1].
    rewrite (rsplit1_without_sep sep l Hl), Ascii.eqb_refl. reflexivity.
  - rewrite string_app_cons. cbn [PyStr.rsplit1]. rewrite IH. reflexivity.
Qed.

Lemma segments_ok (path : string) : Forall is_segment (segments path).
Proof.
  unfold segments. apply Forall_forall. intros w Hw.
  apply list_elem_of_filter in Hw as [Hne Hin].
  split.
  - intros ->. exact Hne.
  - pose proof (split_no_sep "/" path) as Hall. rewrite Forall_forall in Hall.
    apply Hall. exact Hin.
Qed.

Lemma filter_segments (l : list string) :
  Forall is_segment l -> filter (fun p => negb (String.eqb p "")) l = l.
Proof.
  induction l as [|w l IH]; [reflexivity|]. intros H.
  apply Forall_cons in H as [[Hne _] Hl].
  rewrite filter_cons_True, (IH Hl); [reflexivity|].
  destruct (String.eqb_spec w ""); [contradiction|exact I].
Qed.

(** The segments of a join of segments are those segments. *)
Lemma segments_join (l : list string) :
  Forall is_segment l -> segments (PyStr.join "/" l) = l.
Proof.
  intros Hl. destruct l as [|w l]; [reflexivity|].
  unfold segments. rewrite split_join.
  - apply filter_segments. exact Hl.
  - discriminate.
  - eapply Forall_impl; [exact Hl|]. intros x [_ Hx]. exact Hx.
Qed.

Lemma normalize_segments (path : string) :
  normalize path = PyStr.join "/" (segments path).
Proof. reflexivity. Qed.

Lemma normalize_normalize (path : string) : normalize (normalize path) = normalize path.
Proof.
  rewrite !normalize_segments, segments_join; [reflexivity|apply segments_ok].
Qed.

Lemma join_segments_not_empty (w : string) (l : list string) :
  w <> "" -> PyStr.join "/" (w :: l) <> "".
Proof.
  intros Hw. destruct w as [|c w]; [congruence|].
  destruct l; cbn [PyStr.join]; [discriminate|]. rewrite string_app_cons. discriminate.
Qed.

(** [_split_path] in terms of the segments: the parent is the join of all
    segments but the last, the leaf is the last one. *)
Lemma split_path_spec (path : string) :
  _split_path path
  = (PyStr.join "/" (removelast (segments path)), List.last (segments path) "").
Proof.
  unfold _split_path. rewrite normalize_segments.
  pose proof (segments_ok path) as Hok.
  destruct (segments path) as [|w ws] eqn:E; [reflexivity|].
  destruct (@exists_last _ (w :: ws) ltac:(discriminate)) as (xs & x & Hx).
  rewrite Hx in Hok |- *. rewrite removelast_last, last_last.
  apply Forall_app in Hok as [Hxs Hlast]. apply Forall_cons in Hlast as [[Hne Hsep] _].
  destruct xs as [|y ys].
  - cbn [app PyStr.join]. rewrite Hsep. reflexivity.
  - rewrite join_snoc by discriminate.
    change ("/" ++ x)%string with (String "/" x).
    rewrite contains_app_sep. cbn [negb]. rewrite rsplit1_app_sep by exact Hsep.
    reflexivity.
Qed.

Lemma segments_removelast (path : string) :
  Forall is_segment (removelast (segments path)).
Proof.
  pose proof (segments_ok path) as Hok.
  destruct (segments path) as [|w ws]; [constructor|].
  destruct (@exists_last _ (w :: ws) ltac:(discriminate)) as (xs & x & Hx).
  rewrite Hx in Hok |- *. rewrite removelast_last.
  apply Forall_app in Hok as [Hxs _]. exact Hxs.
Qed.

(** The parent [_split_path] returns is normalized, and shorter than the
    normalized path unless that is empty. *)
Lemma split_path_parent (path : string) :
  normalize (_split_path path).1 = (_split_path path).1
  /\ (normalize path <> "" ->
      (String.length (_split_path path).1 < String.length (normalize path))%nat).
Proof.
  rewrite split_path_spec. cbn [fst]. split.
  - rewrite normalize_segments, segments_join; [reflexivity|apply segments_removelast].
  - rewrite normalize_segments. pose proof (segments_ok path) as Hok.
    destruct (segments path) as [|w ws]; [cbn; congruence|]. intros _.
    destruct (@exists_last _ (w :: ws) ltac:(discriminate)) as (xs & x & Hx).
    rewrite Hx in Hok |- *. rewrite removelast_last.
    apply Forall_app in Hok as [_ Hlast]. apply Forall_cons in Hlast as [[Hne _] _].
    destruct xs as [|y ys].
    + cbn [app PyStr.join String.length]. destruct x; [congruence|cbn; lia].
    + rewrite join_snoc by discriminate. rewrite !string_app_length. cbn. lia.
Qed.

(** [_split_path]: the leaf has no slash, the parent is normalized, and
    joining the two gives the normalized path back. *)
Theorem split_path_rejoin (path : string) :
  PyStr.contains "/" (_split_path path).2 = false
  /\ normalize (_split_path path).1 = (_split_path path).1
  /\ normalize path
     = (if String.eqb (_split_path path).1 "" then (_split_path path).2
        else (_split_path path).1 ++ "/" ++ (_split_path path).2)%string.
Proof.
  split; [|split; [apply split_path_parent|]].
  - rewrite split_path_spec. cbn [snd]. pose proof (segments_ok path) as Hok.
    destruct (segments path) as [|w ws]; [reflexivity|].
    destruct (@exists_last _ (w :: ws) ltac:(discriminate)) as (xs & x & Hx).
    rewrite Hx in Hok |- *. rewrite last_last.
    apply Forall_app in Hok as [_ Hlast]. apply Forall_cons in Hlast as [[_ Hsep] _].
    exact Hsep.
  - rewrite split_path_spec, normalize_segments. cbn [fst snd].
    pose proof (segments_ok path) as Hok.
    destruct (segments path) as [|w ws]; [reflexivity|].
    destruct (@exists_last _ (w :: ws) ltac:(discriminate)) as (xs & x & Hx).
    rewrite Hx in Hok |- *. rewrite removelast_last, last_last.
    apply Forall_app in Hok as [Hxs _].
    destruct xs as [|y ys]; [reflexivity|].
    apply Forall_cons in Hxs as [[Hy _] _].
    pose proof (join_segments_not_empty y ys Hy) as Hne.
    destruct (String.eqb_spec (PyStr.join "/" (y :: ys)) ""); [contradiction|].
    apply join_snoc. discriminate.
Qed.

(** Normalizing twice is normalizing once, and [_split_path] does not see
    the slashes normalization removes. *)
Theorem normalize_idempotent (path : string) :
  normalize (normalize path) = normalize path
  /\ _split_path (normalize path) = _split_path path.
Proof.
  split; [apply normalize_normalize|].
  unfold _split_path. rewrite normalize_normalize. reflexivity.
Qed.

(** *** Containers *)

Lemma join_split (sep : ascii) (s : string) :
  PyStr.join (String sep "") (PyStr.split sep s) = s.
Proof.
  induction s as [|c s IH]; [reflexivity|]. cbn [PyStr.split].
  destruct (Ascii.eqb_spec c sep) as [->|Hne].
  - pose proof (split_not_nil sep s) as Hnil.
    destruct (PyStr.split sep s) as [|w ws] eqn:E; [congruence|].
    change (PyStr.join (String sep "") ("" :: w :: ws))
      with ("" ++ String sep "" ++ PyStr.join (String sep "") (w :: ws))%string.
    rewrite IH. reflexivity.
  - destruct (PyStr.split sep s) as [|w ws] eqn:E.
    + cbn in IH. subst s. reflexivity.
    + destruct ws as [|w' ws]; [cbn in IH |- *; subst s; reflexivity|].
      change (PyStr.join (String sep "") (String c w :: w' :: ws))
        with (String c w ++ String sep "" ++ PyStr.join (String sep "") (w' :: ws))%string.
      rewrite string_app_cons. f_equal. exact IH.
Qed.

Lemma join_length (sep : string) (l : list string) :
  l <> [] ->
  (String.length (PyStr.join sep l) + String.length sep
   = list_sum (map (fun w => String.length w + String.length sep) l))%nat.
Proof.
  induction l as [|w l IH]; [congruence|]. intros _.
  destruct l as [|w' l]; [cbn; lia|].
  change (PyStr.join sep (w :: w' :: l)) with (w ++ sep ++ PyStr.join sep (w' :: l))%string.
  rewrite !string_app_length. specialize (IH ltac:(discriminate)).
  cbn [map list_sum fold_right] in IH |- *. lia.
Qed.

Lemma filter_weight (sep : string) (l : list string) :
  (list_sum (map (fun w => String.length w + String.length sep)
               (filter (fun p => negb (String.eqb p "")) l))
   <= list_sum (map (fun w => String.length w + String.length sep) l))%nat.
Proof.
  unfold list_sum. induction l as [|w l IH]; [reflexivity|]. rewrite filter_cons.
  destruct (decide _); cbn [map fold_right]; lia.
Qed.

Lemma normalize_length (path : string) :
  (String.length (normalize path) <= String.length path)%nat.
Proof.
  rewrite normalize_segments. unfold segments.
  pose proof (join_length "/" (PyStr.split "/" path) (split_not_nil _ _)) as Hfull.
  rewrite join_split in Hfull.
  pose proof (filter_weight "/" (PyStr.split "/" path)) as Hle.
  destruct (filter _ (PyStr.split "/" path)) as [|w ws] eqn:E; [cbn; lia|].
  pose proof (join_length "/" (w :: ws) ltac:(discriminate)) as Hpart. lia.
Qed.

(** With fuel beyond the length of the normalized path the recursion ends
    by itself, and more fuel changes nothing. *)
Lemma ensure_object_path_fuel (fuel fuel' : nat) (srv : Server) (cache : gmap string string)
    (ns_idx : Z) (path : string) :
  (String.length (normalize path) < fuel)%nat -> (fuel <= fuel')%nat ->
  (_ensure_object_path fuel srv cache ns_idx path).2 <> Raise RecursionError
  /\ _ensure_object_path fuel' srv cache ns_idx path
     = _ensure_object_path fuel srv cache ns_idx path.
Proof.
  revert fuel' srv cache path.
  induction fuel as [|fuel IH]; intros fuel' srv cache path Hlen Hle; [lia|].
  destruct fuel' as [|fuel']; [lia|]. cbn [_ensure_object_path].
  destruct (cache !! normalize path) as [obj|]; [split; [discriminate|reflexivity]|].
  destruct (split_path_parent (normalize path)) as [Hnorm Hshort].
  rewrite normalize_normalize in Hshort.
  destruct (_split_path (normalize path)) as [parent_path leaf]. cbn [fst] in Hnorm, Hshort.
  destruct (String.eqb_spec (normalize path) "") as [Hempty|Hne]; cbn [negb].
  - split; [discriminate|reflexivity].
  - specialize (Hshort Hne).
    destruct (IH fuel' srv cache parent_path) as [Hrec Hsame]; [rewrite Hnorm; lia|lia|].
    rewrite Hsame.
    destruct (_ensure_object_path fuel srv cache ns_idx parent_path)
      as [[srv1 cache1] [parent|e]]; cbn [snd] in Hrec |- *.
    + destruct (add_object srv1 parent _ leaf) as [srv2 [obj|e]] eqn:Eadd.
      * split; [discriminate|reflexivity].
      * split; [|reflexivity]. unfold add_object in Eadd.
        destruct (nodes srv1 !! _); injection Eadd as _ <-; discriminate.
    + split; [exact Hrec|reflexivity].
Qed.

(** [_ensure_object_path] terminates on every path: with the fuel
    [path_fuel] allows, the recursion bottoms out by itself, and any larger
    fuel returns the same server, cache and result. *)
Theorem ensure_object_path_terminates (extra : nat) (srv : Server)
    (cache : gmap string string) (ns_idx : Z) (path : string) :
  (_ensure_object_path (path_fuel path) srv cache ns_idx path).2 <> Raise RecursionError
  /\ _ensure_object_path (path_fuel path + extra) srv cache ns_idx path
     = _ensure_object_path (path_fuel path) srv cache ns_idx path.
Proof.
  apply ensure_object_path_fuel; unfold path_fuel; [|lia].
  pose proof (normalize_length path). lia.
Qed.

(** What a successful call leaves: the cache and the address space only
    grow, and the container is cached under the normalized path. *)
Lemma ensure_object_path_cache (fuel : nat) (srv srv' : Server)
    (cache cache' : gmap string string) (ns_idx : Z) (path obj : string) :
  _ensure_object_path fuel srv cache ns_idx path = (srv', cache', Ok obj) ->
  cache ⊆ cache' /\ nodes srv ⊆ nodes srv'
  /\ (normalize path <> "" -> cache' !! normalize path = Some obj).
Proof.
  revert srv srv' cache cache' path obj.
  induction fuel as [|fuel IH]; intros srv srv' cache cache' path obj;
    cbn [_ensure_object_path].
  - destruct (cache !! normalize path) as [o|] eqn:Ehit; [|discriminate].
    intros [= <- <- <-]. repeat split; try reflexivity. intros _. exact Ehit.
  - destruct (cache !! normalize path) as [o|] eqn:Ehit.
    { intros [= <- <- <-]. repeat split; try reflexivity. intros _. exact Ehit. }
    destruct (_split_path (normalize path)) as [parent_path leaf].
    destruct (String.eqb_spec (normalize path) "") as [Hempty|Hne]; cbn [negb].
    { intros [= <- <- <-]. repeat split; try reflexivity. congruence. }
    destruct (_ensure_object_path fuel srv cache ns_idx parent_path)
      as [[srv1 cache1] [parent|e]] eqn:Erec; [|discriminate].
    destruct (IH _ _ _ _ _ _ Erec) as (Hc & Hn & _).
    unfold add_object. destruct (nodes srv1 !! _) as [n|] eqn:Enode; [discriminate|].
    intros [= <- <- <-]. cbn [set_nodes nodes]. split; [|split].
    + apply insert_subseteq_r; assumption.
    + etrans; [exact Hn|]. apply insert_subseteq. exact Enode.
    + intros _. apply lookup_insert_eq.
Qed.
